(** * seda-orderdata-go: the Bepensa order integration script

    A shallow embedding of [main.go] (the same program as
    [cmd/bepensa/main.go]): the streaming CSV splitter [splitFile] and the
    fail-fast loop of [main] that drives it.  Line numbers are those of
    [main.go] at the root of the repository.

    The program talks to three collaborators that are not part of the
    repository: the object store (Google Cloud Storage), Go's [encoding/csv]
    and [strconv] packages, and two HTTP services.  They are modelled at the
    level of the calls the program makes:

    - a source object is the sequence of results its CSV reader will yield;
    - a destination writer is the list of rows handed to [writer.Write],
      together with a flag telling whether [wc.Close] was called on it;
    - write and close failures come from an oracle ([Faults]);
    - [strconv.ParseFloat] is a parameter of the splitter, and so is the
      size threshold, whose value in the program is the constant
      [MaxFileSize]. *)

From Stdlib Require Import ZArith List String Ascii Bool Lia.
From Stdlib Require Import Floats.PrimFloat Numbers.Cyclic.Int63.Uint63.
From Stdlib Require Import DecimalString.
From Stdlib Require Import Sorted.
From Stdlib Require DecimalN.
Import ListNotations.

Open Scope string_scope.
Open Scope Z_scope.

(** ** Go values *)

(** Go's [int] on the 64-bit targets the script is built for: results of
    arithmetic wrap around. *)
Definition wrap_int (z : Z) : Z := (z + 2 ^ 63) mod 2 ^ 64 - 2 ^ 63.

(** [len(s)] of a Go string: its number of bytes. *)
Definition len (s : string) : Z := Z.of_nat (String.length s).

(** The values of Go's [error] interface that the program can see.  [EOF]
    is [io.EOF]; [ErrFieldCount] is [csv.ErrFieldCount]; [NumError s] is what
    [strconv.ParseFloat] returns for [s]; [Wrapped] is [errors.Wrap]. *)
Inductive error : Type :=
| EOF
| ErrFieldCount
| IOError (msg : string)
| NumError (input : string)
| APIError (msg : string)
| Wrapped (cause : error) (msg : string).

Definition is_EOF (e : error) : bool :=
  match e with EOF => true | _ => false end.

(** [type File struct { Bucket string; Name string }] *)
Record File : Type := mkFile { Bucket : string; Name : string }.

Definition MaxFileSize : Z := Z.shiftl (10 * 1) 20.
Definition OutBucket : string := "cmrc-integrations".

(** ** [encoding/csv]: the reader *)

(** What the parser of a source object yields for one line: a record or an
    error (an I/O error of the stream, or a syntax error). *)
Inductive Input : Type :=
| InRecord (fields : list string)
| InError (e : error).

Record Reader : Type := mkReader {
  pending : list Input;
  FieldsPerRecord : nat
}.

(** The end of [Reader.readRecord]: with [FieldsPerRecord] zero the first
    record fixes the number of fields, afterwards a record with another
    number of fields is returned together with [ErrFieldCount]. *)
Definition readOne (fpr : nat) (x : Input)
  : (list string * option error) * nat :=
  match x with
  | InError e => (([], Some e), fpr)
  | InRecord fields =>
      if Nat.eqb fpr 0 then ((fields, None), List.length fields)
      else if Nat.eqb (List.length fields) fpr then ((fields, None), fpr)
      else ((fields, Some ErrFieldCount), fpr)
  end.

(** [reader.Read()] *)
Definition Read (r : Reader) : (list string * option error) * Reader :=
  match pending r with
  | [] => (([], Some EOF), r)
  | x :: rest =>
      let '(res, fpr) := readOne (FieldsPerRecord r) x in
      (res, mkReader rest fpr)
  end.

(** ** The destination: [storage.Writer] under a [csv.Writer] *)

(** A writer created by [objPart.NewWriter]: the object name, the rows that
    [writer.Write] accepted so far, and whether [wc.Close] was called. *)
Record Part : Type := mkPart {
  pName : string;
  pRows : list (list string);
  pClosed : bool
}.

(** The failures of the destination.  [writeFault name k] is the error of
    the call of [writer.Write] on the part [name] that would write its row
    number [k] (the header is row 0); [closeFault name] is the error of
    [wc.Close] on it.  Within one call of [splitFile] a part name is used
    for one writer only, so this covers every schedule of failures. *)
Record Faults : Type := mkFaults {
  writeFault : string -> nat -> option error;
  closeFault : string -> option error
}.

Definition noFaults : Faults := mkFaults (fun _ _ => None) (fun _ => None).

(** ** [fmt.Sprintf(file.Name+"_part_%06d.csv", i)] *)

Fixpoint zeros (n : nat) : string :=
  match n with
  | O => ""
  | S n' => String "0" (zeros n')
  end.

Definition pad_left (width : nat) (digits : string) : string :=
  zeros (width - String.length digits) ++ digits.

(** The verb [%06d]: width 6 with the sign counted, padded with zeros. *)
Definition fmt_06d (i : Z) : string :=
  if i <? 0
  then "-" ++ pad_left 5 (NilZero.string_of_uint (N.to_uint (Z.to_N (- i))))
  else pad_left 6 (NilZero.string_of_uint (N.to_uint (Z.to_N i))).

(** The source name is part of the format string; it is taken to hold no
    [%], as the names the bucket listing yields do. *)
Definition partFileName (name : string) (i : Z) : string :=
  name ++ "_part_" ++ fmt_06d i ++ ".csv".

(** ** [splitFile] *)

(** How a call ends: with its two results, or in a run-time panic. *)
Inductive Outcome : Type :=
| Return (files : list File) (err : option error)
| Panic.

(** The variables of [splitFile] that live across iterations.  [retired]
    holds the writers that [wc] no longer points to, oldest first. *)
Record State : Type := mkState {
  files : list File;
  wc : option Part;
  bytesWritten : Z;
  retired : list Part
}.

Definition initState : State := mkState [] None 0 [].

Inductive Step : Type :=
| Continue (st : State)
| Exit (o : Outcome) (st : State).

(** State of the source stream [r]. *)
Inductive Stream : Type := NotOpened | StillOpen | Released.

(** What a call of [splitFile] leaves behind: its outcome, every writer it
    created (in creation order), and the state of the source stream. *)
Record Result : Type := mkResult {
  outcome : Outcome;
  parts : list Part;
  source : Stream
}.

(** The writer [wc] points to, if any, and every writer created so far. *)
Definition current (st : State) : list Part :=
  match wc st with Some w => [w] | None => [] end.

Definition writers (st : State) : list Part := retired st ++ current st.

(** A writer after [wc.Close()]. *)
Definition shut (w : Part) : Part := mkPart (pName w) (pRows w) true.

Section Splitter.

(** [strconv.ParseFloat(s, 64)]: a value or an error. *)
Variable ParseFloat : string -> float + error.
Variable F : Faults.
Variable maxPartBytes : Z.

(** [writer.Write(row)] *)
Definition Write (w : Part) (row : list string) : Part * option error :=
  match writeFault F (pName w) (List.length (pRows w)) with
  | Some e => (w, Some e)
  | None => (mkPart (pName w) (pRows w ++ [row]) (pClosed w), None)
  end.

(** [wc.Close()] *)
Definition Close (w : Part) : Part * option error :=
  (shut w, closeFault F (pName w)).

(** The test of lines 164 and 172: [row5-0. > 0.0001]. *)
Definition included (row5 : float) : bool :=
  PrimFloat.ltb 0x1.a36e2eb1c432dp-14%float (PrimFloat.sub row5 0%float).

(** [len([]byte(strings.Join(record, ","))) + len([]byte("\n"))] *)
Definition rowBytes (record : list string) : Z :=
  len (String.concat "," record) + len (String (ascii_of_nat 10) "").

(** Line 132: [wc == nil || bytesWritten > MaxFileSize]. *)
Definition needPart (st : State) : bool :=
  match wc st with
  | None => true
  | Some _ => maxPartBytes <? bytesWritten st
  end.

(** Lines 133-140: close the part that is open, and record it when the
    close succeeded. *)
Definition closeCurrent (st : State) : Step :=
  match wc st with
  | None => Continue st
  | Some w =>
      let '(w', err) := Close w in
      match err with
      | None =>
          Continue (mkState (files st ++ [mkFile OutBucket (pName w')])
                            (Some w') (bytesWritten st) (retired st))
      | Some e =>
          Exit (Return (files st) (Some e))
               (mkState (files st) (Some w') (bytesWritten st) (retired st))
      end
  end.

(** Lines 142-156: create the next part, write the header into it and
    reset the byte count. *)
Definition openPart (file : File) (header : list string) (i : Z)
    (st : State) : Step :=
  let old := current st in
  let new := mkPart (partFileName (Name file) i) [] false in
  let '(new', err) := Write new header in
  match err with
  | Some e =>
      Exit (Return (files st) (Some e))
           (mkState (files st) (Some new') (bytesWritten st)
                    (retired st ++ old))
  | None =>
      Continue (mkState (files st) (Some new') 0 (retired st ++ old))
  end.

(** Lines 131-157: "Check if it's time to create a new part file". *)
Definition rollover (file : File) (header : list string) (i : Z)
    (st : State) : Step :=
  if needPart st then
    match closeCurrent st with
    | Exit o st' => Exit o st'
    | Continue st' => openPart file header i st'
    end
  else Continue st.

(** Lines 159-174: parse the quantity, write the row, account its size.
    [writer] is the CSV writer over [wc]; [writer.Flush()] on line 170
    returns nothing and its error is not looked at. *)
Definition filterRow (record : list string) (st : State) : Step :=
  match nth_error record 5 with
  | None => Exit Panic st
  | Some field =>
      match ParseFloat field with
      | inr e =>
          Exit (Return (files st)
                  (Some (Wrapped e "could not convert row 5 to float"))) st
      | inl row5 =>
          match wc st with
          | None => Exit Panic st
          | Some w =>
              if included row5 then
                let '(w', err) := Write w record in
                match err with
                | Some e =>
                    Exit (Return (files st) (Some e))
                         (mkState (files st) (Some w') (bytesWritten st)
                                  (retired st))
                | None =>
                    Continue
                      (mkState (files st) (Some w')
                         (wrap_int (bytesWritten st + rowBytes record))
                         (retired st))
                end
              else Continue st
          end
      end
  end.

(** One turn of the loop, after [reader.Read] gave [record]. *)
Definition body (file : File) (header : list string) (i : Z)
    (record : list string) (st : State) : Step :=
  match rollover file header i st with
  | Exit o st' => Exit o st'
  | Continue st' => filterRow record st'
  end.

(** Lines 177-180: after the loop. *)
Definition finish (st : State) : Outcome * State :=
  match wc st with
  | Some w =>
      let '(w', _) := Close w in
      (Return (files st) None,
       mkState (files st) (Some w') (bytesWritten st) (retired st))
  | None => (Return (files st) None, st)
  end.

(** The loop of lines 120-175, by recursion on what the reader still
    holds; [fpr] is the reader's [FieldsPerRecord]. *)
Fixpoint loop (file : File) (header : list string) (fpr : nat)
    (pending : list Input) (i : Z) (st : State) : Outcome * State :=
  match pending with
  | [] => finish st
  | x :: rest =>
      let '((record, err), fpr') := readOne fpr x in
      match err with
      | Some e =>
          if is_EOF e then finish st
          else (Return [] (Some e), st)
      | None =>
          match body file header i record st with
          | Exit o st' => (o, st')
          | Continue st' =>
              loop file header fpr' rest (wrap_int (i + 1)) st'
          end
      end
  end.

(** [splitFile]; [obj] is what [obj.NewReader(ctx)] gives for [file].
    The deferred [r.Close()] runs on every way out once the stream is
    open, a panic included. *)
Definition splitFile (obj : list Input + error) (file : File) : Result :=
  match obj with
  | inr e => mkResult (Return [] (Some e)) [] NotOpened
  | inl inputs =>
      let '((header, err), reader) := Read (mkReader inputs 0) in
      match err with
      | Some e => mkResult (Return [] (Some e)) [] Released
      | None =>
          let '(o, st) :=
            loop file header (FieldsPerRecord reader) (pending reader)
                 0 initState in
          mkResult o (writers st) Released
      end
  end.

End Splitter.

(** ** A [strconv.ParseFloat] for plain decimal numerals *)

(** The numerals [[+-]digits[.digits]] with at most 15 digits: the integer
    the digits spell and the power of ten are both exact in binary64, so
    their quotient is the correctly rounded value, which is what Go
    returns.  Go accepts more (exponents, hexadecimal, [inf], [nan]); all
    other inputs are turned down here.  The splitter does not depend on
    this definition: it is the parser the examples run with. *)
Definition digit_of (c : ascii) : option Z :=
  let n := Z.of_nat (nat_of_ascii c) in
  if (48 <=? n) && (n <=? 57) then Some (n - 48) else None.

Fixpoint scanDecimal (s : string) (mant : Z) (ndigits nfrac : nat)
    (dot : bool) : option (Z * nat * nat) :=
  match s with
  | EmptyString => Some (mant, ndigits, nfrac)
  | String c rest =>
      match digit_of c with
      | Some d =>
          scanDecimal rest (mant * 10 + d) (S ndigits)
                      (if dot then S nfrac else nfrac) dot
      | None =>
          if Ascii.eqb c "." && negb dot
          then scanDecimal rest mant ndigits nfrac true
          else None
      end
  end.

Definition float_of_Z (z : Z) : float := PrimFloat.of_uint63 (Uint63.of_Z z).

Definition parseUnsigned (whole s : string) : float + error :=
  match scanDecimal s 0 0 0 false with
  | Some (mant, ndigits, nfrac) =>
      if (Nat.leb 1 ndigits && Nat.leb ndigits 15)%bool
      then inl (PrimFloat.div (float_of_Z mant)
                              (float_of_Z (10 ^ Z.of_nat nfrac)))
      else inr (NumError whole)
  | None => inr (NumError whole)
  end.

Definition parseDecimal (s : string) : float + error :=
  match s with
  | String "-" rest =>
      match parseUnsigned s rest with
      | inl x => inl (PrimFloat.opp x)
      | inr e => inr e
      end
  | String "+" rest => parseUnsigned s rest
  | _ => parseUnsigned s s
  end.

(** ** [ingestFile] and the loop of [main] *)

Definition TemplateName : string := "bepensa-order".
Definition BotId : string := "bepensa-mx-prd".
Definition StorefrontName : string := "bepensa-mx-b2b".
Definition KeyExpression : string := "Record.get('id')".

(** What the program prints, line by line: [PartsLine] is line 255,
    [ErrorReport] the [Printf] of line 270, [FileLine] and [ExecsLine] the
    two [Println] of lines 273-274. *)
Inductive Line : Type :=
| PartsLine (name : string) (nparts : nat)
| ErrorReport (file part : File) (err : error)
| FileLine (f : File)
| ExecsLine (k : list string).

(** [l[n] = x]; [None] is Go's index-out-of-range panic. *)
Definition assign {A : Type} (l : list A) (n : nat) (x : A)
  : option (list A) :=
  if Nat.ltb n (List.length l)
  then Some (firstn n l ++ x :: skipn (S n) l)%list
  else None.

(** [filesExecs[i][j] = id] *)
Definition assign2 (fe : list (list string)) (i j : nat) (id : string)
  : option (list (list string)) :=
  match nth_error fe i with
  | None => None
  | Some row =>
      match assign row j id with
      | None => None
      | Some row' => assign fe i row'
      end
  end.

(** The variables of [main] that the loops assign to. *)
Record Vars : Type := mkVars {
  filesExecs : list (list string);
  fi : File;
  fp : File;
  err : option error
}.

(** How [main] ends: it returns, or the process dies in a panic. *)
Inductive Ending (W : Type) : Type :=
| Finished (v : Vars) (out : list Line) (w : W)
| Crashed (out : list Line) (w : W).
Arguments Finished {W} v out w.
Arguments Crashed {W} out w.

Section Orchestrator.

(** The world outside the process: the two buckets and the two
    services.  Every call of a collaborator takes it and gives it back. *)
Variable W : Type.

(** [splitFile(ctx, inClient, outClient, file)] run in a world. *)
Variable split : File -> W -> Outcome * W.
(** [tmplClient.RenderTemplate(ctx, name, args)] *)
Variable RenderTemplate :
  string -> list (string * string) -> W -> (string * option error) * W.
(** [execClient.CreateExecution(ctx, flow)] *)
Variable CreateExecution : string -> W -> (string * option error) * W.

Definition ingestFile (file : File) (w : W) : (string * option error) * W :=
  let args := [ ("storefrontName", StorefrontName);
                ("botId", BotId);
                ("keyExpression", KeyExpression);
                ("bucket", Bucket file);
                ("file", Name file) ] in
  let '((tmpl, err), w1) := RenderTemplate TemplateName args w in
  match err with
  | Some e => (("", Some e), w1)
  | None => CreateExecution tmpl w1
  end.

(** Lines 260-267: [for j, fp = range parts].  [Some e] in the result is
    [break Files] with [err] set. *)
Fixpoint partsLoop (parts : list File) (i j : nat) (v : Vars)
    (out : list Line) (w : W) : Ending W :=
  match parts with
  | [] => Finished v out w
  | p :: rest =>
      let '((id, e), w1) := ingestFile p w in
      match e with
      | Some e =>
          Finished (mkVars (filesExecs v) (fi v) p (Some e)) out w1
      | None =>
          match assign2 (filesExecs v) i j id with
          | None => Crashed out w1
          | Some fe =>
              partsLoop rest i (S j) (mkVars fe (fi v) p None) out w1
          end
      end
  end.

(** Lines 252-268: [Files: for i, fi = range files]. *)
Fixpoint filesLoop (rest : list File) (i : nat) (v : Vars)
    (out : list Line) (w : W) : Ending W :=
  match rest with
  | [] => Finished v out w
  | f :: rest' =>
      let '(o, w1) := split f w in
      match o with
      | Panic => Crashed out w1
      | Return parts e =>
          let out1 := (out ++ [PartsLine (Name f) (List.length parts)])%list in
          match e with
          | Some e =>
              Finished (mkVars (filesExecs v) f (fp v) (Some e)) out1 w1
          | None =>
              match assign (filesExecs v) i
                           (repeat "" (List.length parts)) with
              | None => Crashed out1 w1
              | Some fe =>
                  match partsLoop parts i 0 (mkVars fe f (fp v) None)
                                  out1 w1 with
                  | Crashed out2 w2 => Crashed out2 w2
                  | Finished v2 out2 w2 =>
                      match err v2 with
                      | Some _ => Finished v2 out2 w2
                      | None => filesLoop rest' (S i) v2 out2 w2
                      end
                  end
              end
          end
      end
  end.

(** Lines 272-275: [for n, k := range filesExecs]. *)
Fixpoint report (files : list File) (fe : list (list string)) (n : nat)
    : option (list Line) :=
  match fe with
  | [] => Some []
  | k :: rest =>
      match nth_error files n, report files rest (S n) with
      | Some f, Some lines => Some (FileLine f :: ExecsLine k :: lines)
      | _, _ => None
      end
  end.

(** Lines 248-275 of [main]; [files] is what [findFiles] returned. *)
Definition main (files : list File) (w : W) : Ending W :=
  let v0 := mkVars (repeat [] (List.length files))
                   (mkFile "" "") (mkFile "" "") None in
  match filesLoop files 0 v0 [] w with
  | Crashed out w1 => Crashed out w1
  | Finished v out w1 =>
      let out1 :=
        match err v with
        | Some e => (out ++ [ErrorReport (fi v) (fp v) e])%list
        | None => out
        end in
      match report files (filesExecs v) 0 with
      | None => Crashed out1 w1
      | Some lines => Finished v (out1 ++ lines)%list w1
      end
  end.

End Orchestrator.

Arguments ingestFile {W} RenderTemplate CreateExecution file w.
Arguments partsLoop {W} RenderTemplate CreateExecution parts i j v out w.
Arguments filesLoop {W} split RenderTemplate CreateExecution rest i v out w.
Arguments main {W} split RenderTemplate CreateExecution files w.


(** ** Notions the properties are stated with *)

(** The inclusion decision of lines 159-164 on a record: column 5 is
    there, it parses, and the value passes the test. *)
Definition kept (ParseFloat : string -> float + error)
    (record : list string) : bool :=
  match nth_error record 5 with
  | Some field =>
      match ParseFloat field with
      | inl row5 => included row5
      | inr _ => false
      end
  | None => false
  end.

(** The inclusion rule in the words of the specification: the absolute
    value of the quantity exceeds 0.0001. *)
Definition includedAbs (quantity : float) : bool :=
  PrimFloat.ltb 0x1.a36e2eb1c432dp-14%float (PrimFloat.abs quantity).

(** The data records a source holds after its header: what the reader
    yields up to its first error or the end of input. *)
Fixpoint dataRows (pending : list Input) : list (list string) :=
  match pending with
  | InRecord r :: rest => r :: dataRows rest
  | _ => []
  end.

(** A part whose first row is [header]. *)
Definition HeaderFirst (header : list string) (p : Part) : Prop :=
  exists data, pRows p = header :: data.

(** A part that holds nothing because the write of its header failed. *)
Definition Unwritten (F : Faults) (p : Part) : Prop :=
  pRows p = [] /\ writeFault F (pName p) 0 <> None.

(** The rows of a part below its first row, and those of a sequence of
    parts, one part after the other. *)
Definition partData (p : Part) : list (list string) := tl (pRows p).

Definition allData (ps : list Part) : list (list string) :=
  List.concat (map partData ps).

(** The [File] that line 136 records for a part. *)
Definition recorded (p : Part) : File := mkFile OutBucket (pName p).

(** A run of [ingestFile] over [parts] in which every call succeeds:
    it gives the identifiers [ids] and takes the world from [w] to [w']. *)
Inductive ingestsOk {W : Type}
    (ingest : File -> W -> (string * option error) * W)
  : W -> list File -> list string -> W -> Prop :=
| ingestsOk_nil : forall w, ingestsOk ingest w [] [] w
| ingestsOk_cons : forall w p id w1 ps ids w2,
    ingest p w = ((id, None), w1) ->
    ingestsOk ingest w1 ps ids w2 ->
    ingestsOk ingest w (p :: ps) (id :: ids) w2.

(** A world to run [main] in: the objects of the source bucket, the
    failures of the destination, the answers of the two services by
    request, and what the process did so far. *)
Inductive Call : Type :=
| CallSplit (f : File)
| CallRender (name : string) (args : list (string * string))
| CallCreate (flow : string).

Record World : Type := mkWorld {
  inBucket : File -> list Input + error;
  faults : Faults;
  render : string -> list (string * string) -> string * option error;
  execute : string -> string * option error;
  outBucket : list Part;
  calls : list Call
}.

Definition logCall (c : Call) (ps : list Part) (w : World) : World :=
  mkWorld (inBucket w) (faults w) (render w) (execute w)
          (outBucket w ++ ps) (calls w ++ [c]).

Definition splitIn (ParseFloat : string -> float + error) (maxPartBytes : Z)
    (f : File) (w : World) : Outcome * World :=
  let r := splitFile ParseFloat (faults w) maxPartBytes (inBucket w f) f in
  (outcome r, logCall (CallSplit f) (parts r) w).

Definition renderIn (name : string) (args : list (string * string))
    (w : World) : (string * option error) * World :=
  (render w name args, logCall (CallRender name args) [] w).

Definition executeIn (flow : string) (w : World)
  : (string * option error) * World :=
  (execute w flow, logCall (CallCreate flow) [] w).

(** The state after a rollover that opened a part. *)
Definition opened (file : File) (header : list string) (i : Z)
    (st : State) : State :=
  mkState (files st ++ map recorded (current st))
          (Some (mkPart (partFileName (Name file) i) [header] false))
          0
          (retired st ++ map shut (current st)).

(** What holds of the state between two turns of the loop: every writer
    starts with the header, and the parts recorded in [files] are the
    writers that were closed at a rollover. *)
Definition Good (header : list string) (st : State) : Prop :=
  Forall (HeaderFirst header) (writers st) /\
  files st = map recorded (retired st).

(** ** Sample sources *)

Definition InBucket : string := "bucket_rmscm02056_yalo".

Definition sampleFile : File :=
  mkFile InBucket "mx_sellout/20230801-cubo-ventas-40d-001.csv".

Definition sampleHeader : list string :=
  ["id"; "client"; "sku"; "date"; "price"; "quantity"].

Definition sampleRow (id quantity : string) : list string :=
  [id; "c1"; "sku"; "20230801"; "9.5"; quantity].

(** A row of 60 bytes in the size accounting. *)
Definition row60 (id : string) : list string :=
  [id; "client-0001"; "sku-000000000001"; "20230801"; "12.50"; "000000000003"].

Fixpoint repeatChar (n : nat) (c : ascii) : string :=
  match n with
  | O => ""
  | S n' => String c (repeatChar n' c)
  end.

(** A field of [MaxFileSize] bytes, and a record that holds it. *)
Definition bigField : string := repeatChar (Z.to_nat MaxFileSize) "x".

Definition bigRow (big : string) : list string :=
  [big; "c1"; "sku"; "20230801"; "9.5"; "1"].

(** A source of a header, a record that alone exceeds [MaxFileSize], a
    second record, and then [last]. *)
Definition rolledSource (big : string) (last : Input) : list Input + error :=
  inl [ InRecord sampleHeader; InRecord (bigRow big);
        InRecord (sampleRow "2" "3"); last ].

Definition part0 : string :=
  "mx_sellout/20230801-cubo-ventas-40d-001.csv_part_000000.csv".
Definition part1 : string :=
  "mx_sellout/20230801-cubo-ventas-40d-001.csv_part_000001.csv".
Definition part2 : string :=
  "mx_sellout/20230801-cubo-ventas-40d-001.csv_part_000002.csv".

(** A source of five data records, three of which are kept. *)
Definition sampleSource : list Input + error :=
  inl [ InRecord sampleHeader;
        InRecord (sampleRow "1" "3"); InRecord (sampleRow "2" "0");
        InRecord (sampleRow "3" "-5"); InRecord (sampleRow "4" "0.5");
        InRecord (sampleRow "5" "12") ].

(** The state after the first record of [sampleSource]. *)
Definition afterFirstRow : State :=
  mkState [] (Some (mkPart part0 [sampleHeader; sampleRow "1" "3"] false))
          24 [].

(** The state after a second kept record, [sampleRow "2" "7"]. *)
Definition afterSecondRow : State :=
  mkState []
    (Some (mkPart part0
             [sampleHeader; sampleRow "1" "3"; sampleRow "2" "7"] false))
    48 [].

(** ** A sample world for [main] *)

Definition fileA : File := mkFile InBucket "mx_sellout/20230801-a.csv".
Definition fileB : File := mkFile InBucket "mx_sellout/20230801-b.csv".
Definition fileC : File := mkFile InBucket "mx_sellout/20230801-c.csv".

Definition partA0 : File :=
  mkFile OutBucket "mx_sellout/20230801-a.csv_part_000000.csv".
Definition partB0 : File :=
  mkFile OutBucket "mx_sellout/20230801-b.csv_part_000000.csv".
Definition partB1 : File :=
  mkFile OutBucket "mx_sellout/20230801-b.csv_part_000001.csv".

(** File a holds two kept records, files b and c three each; with a
    threshold of 20 bytes every kept record fills its part. *)
Definition sampleObjects (f : File) : list Input + error :=
  if String.eqb (Name f) (Name fileA) then
    inl [ InRecord sampleHeader;
          InRecord (sampleRow "1" "3"); InRecord (sampleRow "2" "4") ]
  else if String.eqb (Name f) (Name fileB) || String.eqb (Name f) (Name fileC)
  then
    inl [ InRecord sampleHeader;
          InRecord (sampleRow "1" "3"); InRecord (sampleRow "2" "4");
          InRecord (sampleRow "3" "5") ]
  else inr (IOError "storage: object doesn't exist").

(** The template service answers with the name of the part; the execution
    service turns down part 1 of file b. *)
Definition sampleRender (name : string) (args : list (string * string))
  : string * option error :=
  (String.concat "" (map snd (skipn 4 args)), None).

Definition sampleExecute (flow : string) : string * option error :=
  if String.eqb flow (Name partB1)
  then ("", Some (APIError "POST executions returned 500"))
  else ("exec:" ++ flow, None).

Definition sampleWorld : World :=
  mkWorld sampleObjects noFaults sampleRender sampleExecute [] [].

(** ** Notions for further properties of the splitter *)

(** The bytes the size accounting of line 173 gives to a list of records. *)
Definition rowsBytes (rows : list (list string)) : Z :=
  fold_right (fun r acc => rowBytes r + acc) 0 rows.

(** A part whose data rows, the last one left aside, stay within the
    threshold; and a part whose data rows exceed it. *)
Definition NotOver (maxPartBytes : Z) (p : Part) : Prop :=
  partData p = [] \/
  exists init lastRow,
    partData p = (init ++ [lastRow])%list /\ rowsBytes init <= maxPartBytes.

Definition Full (maxPartBytes : Z) (p : Part) : Prop :=
  maxPartBytes < rowsBytes (partData p).

(** A part on which [wc.Close()] was called and returned no error. *)
Definition ClosedOk (F : Faults) (p : Part) : Prop :=
  pClosed p = true /\ closeFault F (pName p) = None.

(** The parts that left [wc] were closed without error, and they are the
    ones recorded in [files]. *)
Definition Recorded (F : Faults) (st : State) : Prop :=
  files st = map recorded (retired st) /\
  Forall (ClosedOk F) (retired st).

(** What the size accounting keeps between two turns, the threshold being
    [maxPartBytes]: the count is that of the data rows of the open part, and
    every part that left [wc] did so because its count exceeded the
    threshold. *)
Definition Sized (maxPartBytes : Z) (st : State) : Prop :=
  0 <= bytesWritten st /\
  Forall (fun p => Full maxPartBytes p /\ NotOver maxPartBytes p)
         (retired st) /\
  Forall (fun w => pRows w <> [] /\ NotOver maxPartBytes w /\
                   bytesWritten st = rowsBytes (partData w))
         (current st).



(** ** Notions for further properties of [main] *)

(** A run of the outer loop over [files] in which every split and every
    ingestion succeeds: [partss] are the parts of each file, [idss] their
    execution identifiers. *)
Inductive runsOk {W : Type}
    (split : File -> W -> Outcome * W)
    (ingest : File -> W -> (string * option error) * W)
  : W -> list File -> list (list File) -> list (list string) -> W -> Prop :=
| runsOk_nil : forall w, runsOk split ingest w [] [] [] w
| runsOk_cons : forall w f parts w1 ids w2 fs partss idss w3,
    split f w = (Return parts None, w1) ->
    ingestsOk ingest w1 parts ids w2 ->
    runsOk split ingest w2 fs partss idss w3 ->
    runsOk split ingest w (f :: fs) (parts :: partss) (ids :: idss) w3.

(** The lines of line 255 for files and their parts, and the lines of
    lines 273-274 for files and their rows of [filesExecs]. *)
Definition partsLines (files : list File) (partss : list (list File))
  : list Line :=
  map (fun fp => PartsLine (Name (fst fp)) (List.length (snd fp)))
      (combine files partss).

Definition reportLines (files : list File) (fe : list (list string))
  : list Line :=
  flat_map (fun fk => [FileLine (fst fk); ExecsLine (snd fk)])
           (combine files fe).

(** The zero value of [File], which [fi] and [fp] hold at first. *)
Definition noFile : File := mkFile "" "".

(** ** [findFiles] *)

Definition RootFolder : string := "mx_sellout".

(** [storage.Query], with the fields that lines 63-67 set. *)
Record Query : Type := mkQuery {
  Prefix : string;
  MatchGlob : string;
  Delimiter : string
}.

(** The query of [findFiles]; [t] is [time.Now().Format("20060102")]. *)
Definition findQuery (t : string) : Query :=
  mkQuery (RootFolder ++ "/") ("**/" ++ t ++ "*.csv") "/".

(** Lines 72-81.  A listing is what [it.Next()] yields call after call,
    the name of an object or an error, before [iterator.Done]; [None] is
    the [panic(err)] of line 78. *)
Fixpoint collectNames (listing : list (string + error))
    (names : list string) : option (list string) :=
  match listing with
  | [] => Some names
  | inr _ :: _ => None
  | inl name :: rest => collectNames rest (names ++ [name])
  end.

(** Lines 83-88: [for i, name := range names { files[i] = File{...} }]. *)
Fixpoint fillFiles (bucket : string) (names : list string) (i : nat)
    (files : list File) : option (list File) :=
  match names with
  | [] => Some files
  | name :: rest =>
      match assign files i (mkFile bucket name) with
      | None => None
      | Some files' => fillFiles bucket rest (S i) files'
      end
  end.

Section Finder.

(** [bkt.Objects(ctx, query)]: the listing the store gives. *)
Variable Objects : string -> Query -> list (string + error).
(** [time.Now().Format("20060102")] *)
Variable today : string.

Definition findFiles (bucket : string) : Outcome :=
  match collectNames (Objects bucket (findQuery today)) [] with
  | None => Panic
  | Some names =>
      match fillFiles bucket names 0
                      (repeat (mkFile "" "") (List.length names)) with
      | None => Panic
      | Some files => Return files None
      end
  end.

End Finder.

(** ** Package [client] *)

Module Client.

Definition templatesApiError : error := APIError "templates API error".
Definition executionsApiError : error := APIError "executions API error".

(** [strconv.Itoa] and the verb [%d]. *)
Definition Itoa (n : Z) : string := NilZero.string_of_int (Z.to_int n).

(** [executionsClientConfig] and [templatesClientConfig]; Go names both
    pairs of fields [endpoint] and [token]. *)
Record executionsClientConfig : Type := mkExecutionsConfig {
  execEndpoint : string;
  execToken : string
}.

Record templatesClientConfig : Type := mkTemplatesConfig {
  tmplEndpoint : string;
  tmplToken : string
}.

(** An option is a function on a pointer to the configuration: it gives
    the configuration as it leaves it, and its error. *)
Definition ExecutionsClientOption : Type :=
  executionsClientConfig -> executionsClientConfig * option error.

Definition TemplatesClientOption : Type :=
  templatesClientConfig -> templatesClientConfig * option error.

(** [ExecutionsClient] and [TemplatesClient]; their [http] field is the
    transport [Do] below. *)
Record ExecutionsClient : Type := mkExecutionsClient {
  executionsEndpoint : string;
  executionsToken : string
}.

Record TemplatesClient : Type := mkTemplatesClient {
  templatesEndpoint : string;
  templatesToken : string
}.

(** An HTTP request as the package builds it, and what it reads of a
    response: the status, and the result of [io.ReadAll] on the body. *)
Record Request : Type := mkRequest {
  Method : string;
  URL : string;
  Header : list (string * string);
  Payload : string
}.

Record Response : Type := mkResponse {
  StatusCode : Z;
  Body : string;
  BodyErr : option error
}.

Definition StatusOK : Z := 200.
Definition StatusAccepted : Z := 202.

Section Package.

(** The world the transport acts on. *)
Variable W : Type.
(** The error of [url.Parse(s)]. *)
Variable urlParse : string -> option error.
(** The verb [%q]. *)
Variable quote : string -> string.
(** [url.JoinPath(base, elem)] *)
Variable JoinPath : string -> string -> string * option error.
(** The error of [http.NewRequest(method, url, body)]. *)
Variable NewRequest : string -> string -> option error.
(** [c.http.Do(req)] *)
Variable Do : Request -> W -> (Response + error) * W.
(** [json.Marshal] of a [map[string]string], which cannot fail. *)
Variable Marshal : list (string * string) -> string.
(** [json.Unmarshal(bt, &e)] followed by [e.ExecutionId]. *)
Variable Unmarshal : string -> string * option error.

Definition validateEndpoint (endpoint : string) : option error :=
  match urlParse endpoint with
  | Some e => Some (Wrapped e (quote endpoint ++ " is not a valid URL"))
  | None => None
  end.

Definition WithExecutionsEndpoint (endpoint : string)
  : ExecutionsClientOption :=
  fun c =>
    match validateEndpoint endpoint with
    | Some e => (c, Some e)
    | None => (mkExecutionsConfig endpoint (execToken c), None)
    end.

Definition WithExecutionsToken (token : string) : ExecutionsClientOption :=
  fun c => (mkExecutionsConfig (execEndpoint c) token, None).

Definition defaultExecutionsClientOptions : executionsClientConfig :=
  mkExecutionsConfig "" "".

(** The loop of [NewExecutionsClient] over [opts]. *)
Fixpoint applyExecutionsOptions (opts : list ExecutionsClientOption)
    (cfg : executionsClientConfig) : executionsClientConfig + error :=
  match opts with
  | [] => inl cfg
  | opt :: rest =>
      let '(cfg', err) := opt cfg in
      match err with
      | Some e => inr (Wrapped e "could not create executions client")
      | None => applyExecutionsOptions rest cfg'
      end
  end.

Definition NewExecutionsClient (opts : list ExecutionsClientOption)
  : ExecutionsClient + error :=
  match applyExecutionsOptions opts defaultExecutionsClientOptions with
  | inr e => inr e
  | inl cfg => inl (mkExecutionsClient (execEndpoint cfg) (execToken cfg))
  end.

Definition WithTemplatesEndpoint (endpoint : string)
  : TemplatesClientOption :=
  fun c =>
    match validateEndpoint endpoint with
    | Some e => (c, Some e)
    | None => (mkTemplatesConfig endpoint (tmplToken c), None)
    end.

Definition WithTemplatesToken (token : string) : TemplatesClientOption :=
  fun c => (mkTemplatesConfig (tmplEndpoint c) token, None).

Definition defaultTemplatesClientOptions : templatesClientConfig :=
  mkTemplatesConfig "" "".

Fixpoint applyTemplatesOptions (opts : list TemplatesClientOption)
    (cfg : templatesClientConfig) : templatesClientConfig + error :=
  match opts with
  | [] => inl cfg
  | opt :: rest =>
      let '(cfg', err) := opt cfg in
      match err with
      | Some e => inr (Wrapped e "could not create templates client")
      | None => applyTemplatesOptions rest cfg'
      end
  end.

Definition NewTemplatesClient (opts : list TemplatesClientOption)
  : TemplatesClient + error :=
  match applyTemplatesOptions opts defaultTemplatesClientOptions with
  | inr e => inr e
  | inl cfg => inl (mkTemplatesClient (tmplEndpoint cfg) (tmplToken cfg))
  end.

(** The headers both methods set: the content type, and the bearer token
    when there is one. *)
Definition headers (token : string) : list (string * string) :=
  ("Content-Type", "application/json")
  :: (if String.eqb token "" then []
      else [("Authorization", "Bearer " ++ token)]).

(** [(c *ExecutionsClient) CreateExecution(_, flow)] *)
Definition CreateExecution (c : ExecutionsClient) (flow : string) (w : W)
  : (string * option error) * W :=
  let path := "executions" in
  let '(endpoint, err) := JoinPath (executionsEndpoint c) path in
  match err with
  | Some e =>
      (("", Some (Wrapped e ("could not create full path with "
                             ++ quote (executionsEndpoint c) ++ " and "
                             ++ quote path))), w)
  | None =>
      match NewRequest "POST" endpoint with
      | Some e => (("", Some e), w)
      | None =>
          let req := mkRequest "POST" endpoint
                               (headers (executionsToken c)) flow in
          let '(res, w1) := Do req w in
          match res with
          | inr e => (("", Some (Wrapped e "could not create execution")), w1)
          | inl res =>
              if negb (StatusCode res =? StatusAccepted) then
                (("", Some (Wrapped executionsApiError
                              ("POST " ++ endpoint ++ " returned "
                               ++ Itoa (StatusCode res)))), w1)
              else
                let '(id, err) := Unmarshal (Body res) in
                match err with
                | Some e =>
                    (("", Some (Wrapped e
                        "could not deserialize execution body as JSON")), w1)
                | None => ((id, None), w1)
                end
          end
      end
  end.

(** [(c *TemplatesClient) RenderTemplate(_, name, args)].  The error of
    [url.JoinPath] is overwritten by that of [http.NewRequest] before it
    is looked at. *)
Definition RenderTemplate (c : TemplatesClient) (name : string)
    (args : list (string * string)) (w : W) : (string * option error) * W :=
  let '(endpoint, _) :=
    JoinPath (templatesEndpoint c) ("templates/" ++ name ++ "/render") in
  let b := Marshal args in
  match NewRequest "POST" endpoint with
  | Some e => (("", Some e), w)
  | None =>
      let req := mkRequest "POST" endpoint (headers (templatesToken c)) b in
      let '(r, w1) := Do req w in
      match r with
      | inr e =>
          (("", Some (Wrapped e ("could not get template " ++ quote name))),
           w1)
      | inl r =>
          if negb (StatusCode r =? StatusOK) then
            (("", Some (Wrapped templatesApiError
                          ("got status code " ++ Itoa (StatusCode r)
                           ++ " while attempting to render tempalte "
                           ++ quote name))), w1)
          else
            match BodyErr r with
            | Some e =>
                (("", Some (Wrapped e ("could not read template "
                                       ++ quote name ++ " response body"))),
                 w1)
            | None => ((Body r, None), w1)
            end
      end
  end.

End Package.

End Client.

(** ** Notions for the properties of package [client] *)

(** The options the package offers, as data: an endpoint or a token. *)
Inductive ClientOpt : Type :=
| EndpointOpt (endpoint : string)
| TokenOpt (token : string).

Definition executionsOption (urlParse : string -> option error)
    (quote : string -> string) (o : ClientOpt)
  : Client.ExecutionsClientOption :=
  match o with
  | EndpointOpt s => Client.WithExecutionsEndpoint urlParse quote s
  | TokenOpt s => Client.WithExecutionsToken s
  end.

Definition templatesOption (urlParse : string -> option error)
    (quote : string -> string) (o : ClientOpt)
  : Client.TemplatesClientOption :=
  match o with
  | EndpointOpt s => Client.WithTemplatesEndpoint urlParse quote s
  | TokenOpt s => Client.WithTemplatesToken s
  end.

(** The first endpoint among the options that [url.Parse] turns down,
    with its error. *)
Fixpoint firstInvalid (urlParse : string -> option error)
    (os : list ClientOpt) : option (string * error) :=
  match os with
  | [] => None
  | EndpointOpt s :: rest =>
      match urlParse s with
      | Some e => Some (s, e)
      | None => firstInvalid urlParse rest
      end
  | TokenOpt _ :: rest => firstInvalid urlParse rest
  end.

(** The last endpoint and the last token among the options, [d] when
    there is none. *)
Fixpoint lastEndpoint (d : string) (os : list ClientOpt) : string :=
  match os with
  | [] => d
  | EndpointOpt s :: rest => lastEndpoint s rest
  | TokenOpt _ :: rest => lastEndpoint d rest
  end.

Fixpoint lastToken (d : string) (os : list ClientOpt) : string :=
  match os with
  | [] => d
  | EndpointOpt _ :: rest => lastToken d rest
  | TokenOpt s :: rest => lastToken s rest
  end.

(** The arguments [ingestFile] renders the template with. *)
Definition ingestArgs (file : File) : list (string * string) :=
  [ ("storefrontName", StorefrontName);
    ("botId", BotId);
    ("keyExpression", KeyExpression);
    ("bucket", Bucket file);
    ("file", Name file) ].

(** A record whose column 5 is there and parses. *)
Definition Parsed (ParseFloat : string -> float + error)
    (record : list string) : Prop :=
  exists field row5,
    nth_error record 5 = Some field /\ ParseFloat field = inl row5.

(** ** Samples for the further properties *)

(** A file that the sample bucket does not hold. *)
Definition fileMissing : File := mkFile InBucket "mx_sellout/20230801-z.csv".

Definition partC0 : File :=
  mkFile OutBucket "mx_sellout/20230801-c.csv_part_000000.csv".
Definition partC1 : File :=
  mkFile OutBucket "mx_sellout/20230801-c.csv_part_000001.csv".

(** A source whose two data records are dropped by the test. *)
Definition droppedSource : list Input :=
  [InRecord (sampleRow "1" "0"); InRecord (sampleRow "2" "-5")].

(** A transport that logs the requests it is given and answers the
    render path with status 200 and every other path with status 202. *)
Definition sampleJoinPath (base elem : string) : string * option error :=
  (base ++ "/" ++ elem, None).

Definition sampleDo (req : Client.Request) (log : list Client.Request)
  : (Client.Response + error) * list Client.Request :=
  if String.eqb (Client.URL req)
       "https://api/integrations-templates/templates/bepensa-order/render"
  then (inl (Client.mkResponse 200 ("flow for " ++ Client.Payload req) None),
        (log ++ [req])%list)
  else (inl (Client.mkResponse 202 "exec-1" None), (log ++ [req])%list).

Definition sampleMarshal (args : list (string * string)) : string :=
  String.concat "," (map (fun kv => fst kv ++ "=" ++ snd kv) args).

Definition sampleUnmarshal (body : string) : string * option error :=
  (body, None).

Definition sampleTemplates : Client.TemplatesClient :=
  Client.mkTemplatesClient "https://api/integrations-templates" "t0k".

Definition sampleExecutions : Client.ExecutionsClient :=
  Client.mkExecutionsClient "https://api/integrations-executions" "".

(** * Properties of the splitter *)

(** ** Arithmetic on [int], lengths and the reader *)

Lemma wrap_int_small (z : Z) :
  - 2 ^ 63 <= z < 2 ^ 63 -> wrap_int z = z.
Proof.
  intros H. unfold wrap_int.
  rewrite Z.mod_small; lia.
Qed.

Lemma wrap_int_le (z : Z) : - 2 ^ 63 <= z -> wrap_int z <= z.
Proof.
  intros H. unfold wrap_int.
  pose proof (Z.mod_le (z + 2 ^ 63) (2 ^ 64)). lia.
Qed.

Lemma rowBytes_pos (record : list string) : 1 <= rowBytes record.
Proof. unfold rowBytes, len. simpl String.length. lia. Qed.

Lemma allData_app (ps qs : list Part) :
  allData (ps ++ qs) = (allData ps ++ allData qs)%list.
Proof. unfold allData. now rewrite map_app, concat_app. Qed.

Lemma allData_single (p : Part) : allData [p] = partData p.
Proof. unfold allData. simpl. apply app_nil_r. Qed.

Lemma readOne_same_length (fpr : nat) (r : list string) :
  List.length r = fpr -> readOne fpr (InRecord r) = ((r, None), fpr).
Proof.
  intros <-. unfold readOne.
  destruct (Nat.eqb (List.length r) 0) eqn:E.
  - reflexivity.
  - now rewrite Nat.eqb_refl.
Qed.

Lemma readOne_record (fpr : nat) (x : Input) (r : list string) (fpr' : nat) :
  readOne fpr x = ((r, None), fpr') ->
  x = InRecord r /\ (fpr <> 0%nat -> List.length r = fpr /\ fpr' = fpr).
Proof.
  destruct x as [fields|e]; simpl; [|discriminate].
  destruct (Nat.eqb fpr 0) eqn:E0.
  - intros [= <- <-]. split; [reflexivity|].
    apply Nat.eqb_eq in E0. contradiction.
  - destruct (Nat.eqb (List.length fields) fpr) eqn:E1; [|discriminate].
    intros [= <- <-]. apply Nat.eqb_eq in E1. auto.
Qed.

Lemma readOne_error (fpr : nat) (x : Input) (r : list string) (e : error)
    (fpr' : nat) :
  readOne fpr x = ((r, Some e), fpr') ->
  x = InError e \/ (exists fields, x = InRecord fields) /\ e = ErrFieldCount.
Proof.
  destruct x as [fields|e0]; simpl.
  - destruct (Nat.eqb fpr 0); [discriminate|].
    destruct (Nat.eqb (List.length fields) fpr); [discriminate|].
    intros [= <- <- <-]. right. eauto.
  - intros [= <- <- <-]. now left.
Qed.

(** [reader.Read()] on a reader that still holds [x]: what the loop does
    with [readOne] on the list of pending inputs. *)
Lemma Read_pending (x : Input) (rest : list Input) (fpr : nat) :
  Read (mkReader (x :: rest) fpr)
  = (fst (readOne fpr x), mkReader rest (snd (readOne fpr x))).
Proof. unfold Read. simpl. now destruct (readOne fpr x). Qed.

Lemma Read_end (fpr : nat) :
  Read (mkReader [] fpr) = (([], Some EOF), mkReader [] fpr).
Proof. reflexivity. Qed.

Section SplitterFacts.

Variable ParseFloat : string -> float + error.
Variable F : Faults.
Variable maxPartBytes : Z.

(** ** One turn of the loop *)

Lemma kept_inv (record : list string) :
  kept ParseFloat record = true ->
  exists field row5,
    nth_error record 5 = Some field /\ ParseFloat field = inl row5 /\
    included row5 = true.
Proof.
  unfold kept. destruct (nth_error record 5) as [field|]; [|discriminate].
  destruct (ParseFloat field) as [row5|] eqn:E; [|discriminate].
  intros H. exists field, row5. auto.
Qed.

Lemma rollover_continue (file : File) (header : list string) (i : Z)
    (st st' : State) :
  rollover F maxPartBytes file header i st = Continue st' ->
  (needPart maxPartBytes st = false /\ st' = st) \/
  (needPart maxPartBytes st = true /\ st' = opened file header i st).
Proof.
  unfold rollover, closeCurrent, openPart, Write, Close, opened, current.
  destruct (needPart maxPartBytes st) eqn:Hneed.
  - destruct st as [fs [w|] b rt]; simpl.
    + destruct (closeFault F (pName w)); [discriminate|]. simpl.
      destruct (writeFault F _ 0); [discriminate|].
      intros [= <-]. right. split; reflexivity.
    + destruct (writeFault F _ 0); [discriminate|].
      intros [= <-]. right. rewrite !app_nil_r. split; reflexivity.
  - intros [= <-]. now left.
Qed.

Lemma rollover_exit (file : File) (header : list string) (i : Z)
    (st st' : State) (o : Outcome) :
  rollover F maxPartBytes file header i st = Exit o st' ->
  exists e, o = Return (files st') (Some e) /\
    ((exists w, wc st = Some w /\
        st' = mkState (files st) (Some (shut w)) (bytesWritten st)
                      (retired st)) \/
     (let new := mkPart (partFileName (Name file) i) [] false in
      writeFault F (pName new) 0 = Some e /\
      st' = mkState (files st ++ map recorded (current st)) (Some new)
                    (bytesWritten st)
                    (retired st ++ map shut (current st)))).
Proof.
  unfold rollover, closeCurrent, openPart, Write, Close, current.
  destruct (needPart maxPartBytes st); [|discriminate].
  destruct st as [fs [w|] b rt]; simpl.
  - destruct (closeFault F (pName w)) as [e|].
    + intros [= <- <-]. exists e. split; [reflexivity|]. left. eauto.
    + simpl. destruct (writeFault F _ 0) as [e|] eqn:E; [|discriminate].
      intros [= <- <-]. exists e. split; [reflexivity|]. right. auto.
  - destruct (writeFault F _ 0) as [e|] eqn:E; [|discriminate].
    intros [= <- <-]. exists e. split; [reflexivity|]. right.
    rewrite !app_nil_r. auto.
Qed.

Lemma filterRow_continue (record : list string) (st st' : State) :
  filterRow ParseFloat F record st = Continue st' ->
  exists w, wc st = Some w /\
    ((kept ParseFloat record = true /\
      st' = mkState (files st)
              (Some (mkPart (pName w) (pRows w ++ [record]) (pClosed w)))
              (wrap_int (bytesWritten st + rowBytes record))
              (retired st)) \/
     (kept ParseFloat record = false /\ st' = st)).
Proof.
  unfold filterRow, kept, Write.
  destruct (nth_error record 5) as [field|]; [|discriminate].
  destruct (ParseFloat field) as [row5|]; [|discriminate].
  destruct (wc st) as [w|]; [|discriminate].
  destruct (included row5).
  - destruct (writeFault F _ _); [discriminate|].
    intros [= <-]. exists w. auto.
  - intros [= <-]. exists w. auto.
Qed.

Lemma filterRow_exit (record : list string) (st st' : State) (o : Outcome) :
  filterRow ParseFloat F record st = Exit o st' ->
  st' = st /\
  (o = Panic /\ (nth_error record 5 = None \/ wc st = None) \/
   exists e, o = Return (files st) (Some e)).
Proof.
  unfold filterRow, Write.
  destruct (nth_error record 5) as [field|].
  2:{ intros [= <- <-]. auto. }
  destruct (ParseFloat field) as [row5|e].
  2:{ intros [= <- <-]. split; [reflexivity|]. right. eauto. }
  destruct st as [fs [w|] b rt]; simpl.
  2:{ intros [= <- <-]. auto. }
  destruct (included row5); [|discriminate].
  destruct (writeFault F _ _) as [e|]; [|discriminate].
  intros [= <- <-]. split; [reflexivity|]. right. eauto.
Qed.

(** ** Invariants of the loop *)

Lemma partData_shut (w : Part) : partData (shut w) = partData w.
Proof. reflexivity. Qed.

Lemma allData_shut (ps : list Part) : allData (map shut ps) = allData ps.
Proof.
  unfold allData. rewrite map_map. f_equal.
Qed.

Lemma HeaderFirst_shut (header : list string) (ps : list Part) :
  Forall (HeaderFirst header) ps -> Forall (HeaderFirst header) (map shut ps).
Proof.
  intros H. apply Forall_map. eapply Forall_impl; [|exact H].
  intros p [d Hd]. exists d. exact Hd.
Qed.

Lemma Good_init (header : list string) : Good header initState.
Proof. split; [constructor|reflexivity]. Qed.

Lemma Good_opened (file : File) (header : list string) (i : Z) (st : State) :
  Good header st ->
  Good header (opened file header i st) /\
  allData (writers (opened file header i st)) = allData (writers st).
Proof.
  intros [Hh Hf]. unfold Good, opened, writers in *.
  cbn [current wc retired files].
  apply Forall_app in Hh as [Hr Hc].
  repeat split.
  - apply Forall_app; split.
    + apply Forall_app; split; [exact Hr|]. now apply HeaderFirst_shut.
    + constructor; [|constructor]. exists []. reflexivity.
  - rewrite Hf, !map_app, map_map. reflexivity.
  - rewrite !allData_app, allData_shut, allData_single.
    unfold partData. simpl. now rewrite app_nil_r.
Qed.

Lemma Good_body (file : File) (header record : list string) (i : Z)
    (st st' : State) :
  body ParseFloat F maxPartBytes file header i record st = Continue st' ->
  Good header st ->
  Good header st' /\
  allData (writers st') =
    (allData (writers st)
       ++ (if kept ParseFloat record then [record] else []))%list.
Proof.
  unfold body. intros H G.
  destruct (rollover F maxPartBytes file header i st) as [st1|] eqn:R;
    [|discriminate].
  assert (G1 : Good header st1 /\ allData (writers st1) = allData (writers st)).
  { apply rollover_continue in R as [[_ ->]|[_ ->]]; [auto|].
    now apply Good_opened. }
  destruct G1 as [[Hh Hf] Hd].
  apply filterRow_continue in H as [w [Hw [[Hk ->]|[Hk ->]]]]; rewrite Hk.
  - unfold Good, writers, current in *. rewrite Hw in *. simpl.
    apply Forall_app in Hh as [Hr Hc].
    inversion Hc as [|? ? [d Hrows] _]; subst.
    repeat split; [|exact Hf|].
    + apply Forall_app; split; [exact Hr|]. constructor; [|constructor].
      exists (d ++ [record])%list. simpl. now rewrite Hrows.
    + rewrite <- Hd, !allData_app, !allData_single. unfold partData. simpl.
      rewrite Hrows. simpl. now rewrite app_assoc.
  - rewrite app_nil_r. repeat split; assumption.
Qed.

Lemma finish_spec (st : State) :
  exists st', finish F st = (Return (files st) None, st') /\
    files st' = files st /\ retired st' = retired st /\
    current st' = map shut (current st).
Proof.
  unfold finish, Close, current. destruct st as [fs [w|] b rt]; simpl.
  - eexists. split; [reflexivity|]. simpl. auto.
  - eexists. split; [reflexivity|]. simpl. auto.
Qed.

Lemma body_current (file : File) (header record : list string) (i : Z)
    (st st' : State) :
  body ParseFloat F maxPartBytes file header i record st = Continue st' ->
  current st' <> [].
Proof.
  unfold body.
  destruct (rollover F maxPartBytes file header i st) as [st1|];
    [|discriminate].
  intros H.
  apply filterRow_continue in H as [w [Hw [[_ ->]|[_ ->]]]];
    unfold current; [simpl|rewrite Hw]; discriminate.
Qed.

(** A part that starts with the header, or that holds nothing because
    the header could not be written. *)
Lemma Good_settled (header : list string) (st : State) :
  Good header st ->
  Forall (fun p => HeaderFirst header p \/ Unwritten F p) (writers st).
Proof.
  intros [H _]. eapply Forall_impl; [|exact H]. intros p Hp. now left.
Qed.

Lemma body_exit (file : File) (header record : list string) (i : Z)
    (st st' : State) (o : Outcome) :
  body ParseFloat F maxPartBytes file header i record st = Exit o st' ->
  Good header st ->
  (o = Panic \/ exists fs e, o = Return fs (Some e)) /\
  Forall (fun p => HeaderFirst header p \/ Unwritten F p) (writers st').
Proof.
  unfold body. intros H G.
  destruct (rollover F maxPartBytes file header i st) as [st1|o1 st1] eqn:R.
  - assert (G1 : Good header st1).
    { apply rollover_continue in R as [[_ ->]|[_ ->]]; [auto|].
      now apply Good_opened. }
    apply filterRow_exit in H as [-> Ho]. split.
    + destruct Ho as [[-> _]|[e ->]]; eauto.
    + now apply Good_settled.
  - injection H as <- <-.
    apply rollover_exit in R as [e [-> Hst]]. split; [eauto|].
    destruct G as [Hh _]. unfold writers in *.
    apply Forall_app in Hh as [Hr Hc].
    assert (Hr' : Forall (fun p => HeaderFirst header p \/ Unwritten F p)
                         (retired st)).
    { eapply Forall_impl; [|exact Hr]. intros p Hp. now left. }
    destruct Hst as [[w [Hw ->]]|[Hfault ->]]; cbn [retired current wc].
    + apply Forall_app; split; [exact Hr'|].
      unfold current in Hc. rewrite Hw in Hc.
      inversion Hc as [|? ? [d Hd] _]; subst.
      constructor; [|constructor]. left. exists d. exact Hd.
    + apply Forall_app; split.
      * apply Forall_app; split; [exact Hr'|].
        apply HeaderFirst_shut in Hc.
        eapply Forall_impl; [|exact Hc]. intros p Hp. now left.
      * constructor; [|constructor]. right. split; [reflexivity|].
        simpl in *. rewrite Hfault. discriminate.
Qed.

(** ** The loop as a whole *)

Lemma loop_success (file : File) (header : list string)
    (pending : list Input) :
  forall (fpr : nat) (i : Z) (st st' : State) (fs : list File),
  loop ParseFloat F maxPartBytes file header fpr pending i st
    = (Return fs None, st') ->
  Good header st ->
  Good header st' /\ fs = files st' /\
  allData (writers st') =
    (allData (writers st) ++ filter (kept ParseFloat) (dataRows pending))%list
  /\ (current st <> [] \/ dataRows pending <> [] -> current st' <> []).
Proof.
  assert (Hfin : forall st st' fs,
    finish F st = (Return fs None, st') -> Good header st ->
    Good header st' /\ fs = files st' /\
    allData (writers st') = (allData (writers st) ++ [])%list /\
    (current st <> [] -> current st' <> [])).
  { intros st st' fs H [Hh Hf].
    destruct (finish_spec st) as [st0 [E [Efs [Ert Ecur]]]].
    rewrite E in H. injection H as <- <-.
    unfold Good, writers in *. rewrite Efs, Ert, Ecur.
    apply Forall_app in Hh as [Hr Hc].
    repeat split; auto.
    - apply Forall_app; split; [exact Hr|]. now apply HeaderFirst_shut.
    - rewrite app_nil_r, !allData_app, allData_shut. reflexivity.
    - intros Hne. destruct (current st); [contradiction|discriminate]. }
  induction pending as [|x rest IH]; intros fpr i st st' fs H G.
  - simpl in H. destruct (Hfin _ _ _ H G) as [G' [Hfs [Hd Hc]]].
    split; [exact G'|]. split; [exact Hfs|]. split; [exact Hd|].
    intros [Hne|Hne]; [auto|now contradiction Hne].
  - cbn [loop] in H.
    destruct (readOne fpr x) as [[record [e|]] fpr'] eqn:R.
    + destruct (is_EOF e) eqn:Heof; [|discriminate].
      apply readOne_error in R as [->|[_ ->]]; [|discriminate].
      destruct (Hfin _ _ _ H G) as [G' [Hfs [Hd Hc]]].
      split; [exact G'|]. split; [exact Hfs|]. split; [exact Hd|].
      intros [Hne|Hne]; [auto|now contradiction Hne].
    + apply readOne_record in R as [-> _].
      destruct (body ParseFloat F maxPartBytes file header i record st)
        as [st1|o st1] eqn:B.
      * destruct (Good_body _ _ _ _ _ _ B G) as [G1 Hd1].
        apply body_current in B.
        destruct (IH _ _ _ _ _ H G1) as [G' [Hfs [Hd Hc]]].
        split; [exact G'|]. split; [exact Hfs|]. split; [|auto].
        rewrite Hd, Hd1, <- app_assoc. f_equal.
        simpl. destruct (kept ParseFloat record); reflexivity.
      * injection H as -> <-.
        apply (body_exit _ _ _ _ _ _ _ B) in G as [[Ho|[fs' [e Ho]]] _];
          discriminate.
Qed.

Lemma loop_settled (file : File) (header : list string)
    (pending : list Input) :
  forall (fpr : nat) (i : Z) (st st' : State) (o : Outcome),
  loop ParseFloat F maxPartBytes file header fpr pending i st = (o, st') ->
  Good header st ->
  Forall (fun p => HeaderFirst header p \/ Unwritten F p) (writers st').
Proof.
  assert (Hfin : forall st st' o,
    finish F st = (o, st') -> Good header st ->
    Forall (fun p => HeaderFirst header p \/ Unwritten F p) (writers st')).
  { intros st st' o H [Hh Hf].
    destruct (finish_spec st) as [st0 [E [Efs [Ert Ecur]]]].
    rewrite E in H. injection H as <- <-.
    unfold writers in *. rewrite Ert, Ecur.
    apply Forall_app in Hh as [Hr Hc]. apply HeaderFirst_shut in Hc.
    apply Forall_app; split;
      (eapply Forall_impl; [|eassumption]); intros p Hp; now left. }
  induction pending as [|x rest IH]; intros fpr i st st' o H G.
  - simpl in H. eauto.
  - cbn [loop] in H.
    destruct (readOne fpr x) as [[record [e|]] fpr'] eqn:R.
    + destruct (is_EOF e); [eauto|].
      injection H as <- <-. now apply Good_settled.
    + destruct (body ParseFloat F maxPartBytes file header i record st)
        as [st1|o1 st1] eqn:B.
      * destruct (Good_body _ _ _ _ _ _ B G) as [G1 _]. eauto.
      * injection H as <- <-.
        now apply (body_exit _ _ _ _ _ _ _ B) in G as [_ G].
Qed.

(** [splitFile] on a source whose first record is read. *)
Lemma splitFile_unfold (header : list string) (rest : list Input)
    (file : File) :
  splitFile ParseFloat F maxPartBytes (inl (InRecord header :: rest)) file =
  let '(o, st) :=
    loop ParseFloat F maxPartBytes file header (List.length header) rest
         0 initState in
  mkResult o (writers st) Released.
Proof. reflexivity. Qed.

(** A call that returns without error was given a source with a header. *)
Lemma splitFile_success_source (obj : list Input + error) (file : File)
    (fs : list File) :
  outcome (splitFile ParseFloat F maxPartBytes obj file) = Return fs None ->
  exists header rest, obj = inl (InRecord header :: rest).
Proof.
  destruct obj as [[|[header|e] rest]|e]; simpl; try discriminate.
  intros _. eauto.
Qed.

(** ** Running the loop by hand *)

Lemma filterRow_kept (record : list string) (st : State) (w : Part) :
  kept ParseFloat record = true ->
  wc st = Some w ->
  writeFault F (pName w) (List.length (pRows w)) = None ->
  filterRow ParseFloat F record st =
  Continue (mkState (files st)
              (Some (mkPart (pName w) (pRows w ++ [record]) (pClosed w)))
              (wrap_int (bytesWritten st + rowBytes record))
              (retired st)).
Proof.
  intros Hk Hw Hf. apply kept_inv in Hk as [field [row5 [Hn [Hp Hi]]]].
  unfold filterRow, Write. now rewrite Hn, Hp, Hw, Hi, Hf.
Qed.

Lemma filterRow_dropped (record : list string) (st : State) (w : Part)
    (field : string) (row5 : float) :
  nth_error record 5 = Some field ->
  ParseFloat field = inl row5 ->
  included row5 = false ->
  wc st = Some w ->
  filterRow ParseFloat F record st = Continue st.
Proof.
  intros Hn Hp Hi Hw. unfold filterRow. now rewrite Hn, Hp, Hw, Hi.
Qed.

Lemma rollover_opens (file : File) (header : list string) (i : Z)
    (st : State) :
  needPart maxPartBytes st = true ->
  (forall w, wc st = Some w -> closeFault F (pName w) = None) ->
  writeFault F (partFileName (Name file) i) 0 = None ->
  rollover F maxPartBytes file header i st
    = Continue (opened file header i st).
Proof.
  intros Hneed Hclose Hwrite.
  unfold rollover, closeCurrent, openPart, Write, Close, opened, current.
  rewrite Hneed. destruct st as [fs [w|] b rt]; simpl in *.
  - rewrite (Hclose w eq_refl). simpl. now rewrite Hwrite.
  - rewrite Hwrite. now rewrite !app_nil_r.
Qed.

Lemma rollover_stays (file : File) (header : list string) (i : Z)
    (st : State) :
  needPart maxPartBytes st = false ->
  rollover F maxPartBytes file header i st = Continue st.
Proof. intros H. unfold rollover. now rewrite H. Qed.

Lemma loop_record (file : File) (header record : list string) (fpr : nat)
    (rest : list Input) (i : Z) (st st1 : State) :
  List.length record = fpr ->
  body ParseFloat F maxPartBytes file header i record st = Continue st1 ->
  loop ParseFloat F maxPartBytes file header fpr (InRecord record :: rest)
       i st
  = loop ParseFloat F maxPartBytes file header fpr rest (wrap_int (i + 1))
         st1.
Proof.
  intros Hlen Hbody. cbn [loop].
  now rewrite (readOne_same_length _ _ Hlen), Hbody.
Qed.

(** ** Panics *)

Lemma body_panic (file : File) (header record : list string) (i : Z)
    (st st' : State) :
  body ParseFloat F maxPartBytes file header i record st = Exit Panic st' ->
  nth_error record 5 = None.
Proof.
  unfold body.
  destruct (rollover F maxPartBytes file header i st) as [st1|o1 st1] eqn:R.
  - intros H. apply filterRow_exit in H as [-> [[_ [Hn|Hw]]|[e He]]].
    + exact Hn.
    + apply rollover_continue in R as [[Hneed ->]|[_ ->]].
      * unfold needPart in Hneed. rewrite Hw in Hneed. discriminate.
      * discriminate.
    + discriminate.
  - intros [= -> <-]. apply rollover_exit in R as [e [He _]]. discriminate.
Qed.

Lemma loop_no_panic (file : File) (header : list string)
    (pending : list Input) :
  forall (fpr : nat) (i : Z) (st st' : State) (o : Outcome),
  (6 <= fpr)%nat ->
  loop ParseFloat F maxPartBytes file header fpr pending i st = (o, st') ->
  o <> Panic.
Proof.
  assert (Hfin : forall st st' o, finish F st = (o, st') -> o <> Panic).
  { intros st st' o H. destruct (finish_spec st) as [st0 [E _]].
    rewrite E in H. injection H as <- <-. discriminate. }
  induction pending as [|x rest IH]; intros fpr i st st' o Hfpr H.
  - simpl in H. eauto.
  - cbn [loop] in H.
    destruct (readOne fpr x) as [[record [e|]] fpr'] eqn:R.
    + destruct (is_EOF e); [eauto|]. injection H as <- <-. discriminate.
    + apply readOne_record in R as [-> Hlen].
      destruct Hlen as [Hlen ->]; [lia|].
      destruct (body ParseFloat F maxPartBytes file header i record st)
        as [st1|o1 st1] eqn:B.
      * eauto.
      * injection H as <- <-. intros ->.
        apply body_panic in B. apply nth_error_None in B. lia.
Qed.

(** ** The properties of [splitFile] *)

(** X18: on a call that returns without error, the recorded files are the
    parts closed at a rollover: the part that is open when the input ends
    is closed by line 178 and is not among them. *)
Lemma returned_files_omit_last (header : list string) (rest : list Input)
    (file : File) (fs : list File) :
  outcome (splitFile ParseFloat F maxPartBytes
             (inl (InRecord header :: rest)) file) = Return fs None ->
  dataRows rest <> [] ->
  exists ps w,
    parts (splitFile ParseFloat F maxPartBytes
             (inl (InRecord header :: rest)) file) = (ps ++ [w])%list /\
    fs = map recorded ps.
Proof.
  rewrite splitFile_unfold.
  destruct (loop ParseFloat F maxPartBytes file header (List.length header)
              rest 0 initState) as [o st] eqn:L.
  simpl. intros -> Hrows.
  apply loop_success in L as [[_ Hf] [-> [_ Hcur]]]; [|apply Good_init].
  specialize (Hcur (or_intror Hrows)).
  unfold writers, current in *. destruct (wc st) as [w|]; [|contradiction].
  exists (retired st), w. auto.
Qed.

(** The failures inside a turn (close, header write, parse, row write)
    return the files accumulated so far. *)
Lemma body_exit_returns_accumulated (file : File)
    (header record : list string) (i : Z) (st st' : State)
    (fs : list File) (e : error) :
  body ParseFloat F maxPartBytes file header i record st
    = Exit (Return fs (Some e)) st' ->
  fs = files st'.
Proof.
  unfold body.
  destruct (rollover F maxPartBytes file header i st) as [st1|o1 st1] eqn:R.
  - intros H. apply filterRow_exit in H as [-> [[Ho _]|[e' He']]];
      [discriminate|]. now injection He' as -> _.
  - intros [= -> <-]. apply rollover_exit in R as [e' [He' _]].
    now injection He' as -> _.
Qed.

(** A failed read returns no file, whatever was accumulated. *)
Lemma loop_read_error (file : File) (header : list string) (fpr : nat)
    (msg : string) (rest : list Input) (i : Z) (st : State) :
  loop ParseFloat F maxPartBytes file header fpr
       (InError (IOError msg) :: rest) i st
  = (Return [] (Some (IOError msg)), st).
Proof. reflexivity. Qed.

(** Once the source is open, the deferred [r.Close()] releases it on
    every way out. *)
Lemma source_released (inputs : list Input) (file : File) :
  source (splitFile ParseFloat F maxPartBytes (inl inputs) file) = Released.
Proof.
  unfold splitFile.
  destruct (Read (mkReader inputs 0)) as [[header [e|]] reader];
    [reflexivity|].
  now destruct (loop ParseFloat F maxPartBytes file header
                  (FieldsPerRecord reader) (pending reader) 0 initState).
Qed.

(** A quantity that does not parse in the first data record: line 161
    returns with the writer of part 0 still open. *)
Lemma parse_failure_leaves_writer_open (header r : list string)
    (rest : list Input) (file : File) (field : string) (e : error) :
  List.length r = List.length header ->
  nth_error r 5 = Some field ->
  ParseFloat field = inr e ->
  writeFault F (partFileName (Name file) 0) 0 = None ->
  splitFile ParseFloat F maxPartBytes
            (inl (InRecord header :: InRecord r :: rest)) file
  = mkResult
      (Return [] (Some (Wrapped e "could not convert row 5 to float")))
      [mkPart (partFileName (Name file) 0) [header] false]
      Released.
Proof.
  intros Hsame Hn Hp Hwrite. rewrite splitFile_unfold. cbn [loop].
  rewrite (readOne_same_length _ _ Hsame).
  unfold body. rewrite rollover_opens; [|reflexivity|intros w [=]|exact Hwrite].
  unfold filterRow. rewrite Hn, Hp. reflexivity.
Qed.

(** C2: when [splitFile] returns without error, the data rows of the parts
    it wrote (every part starts with the header), taken part after part,
    are the data records of the source that pass the inclusion test, in
    the order of the source. *)
Theorem split_concat_filtered (obj : list Input + error) (file : File)
    (fs : list File) :
  outcome (splitFile ParseFloat F maxPartBytes obj file) = Return fs None ->
  exists header rest,
    obj = inl (InRecord header :: rest) /\
    Forall (HeaderFirst header)
           (parts (splitFile ParseFloat F maxPartBytes obj file)) /\
    allData (parts (splitFile ParseFloat F maxPartBytes obj file))
      = filter (kept ParseFloat) (dataRows rest).
Proof.
  intros H.
  destruct (splitFile_success_source _ _ _ H) as [header [rest ->]].
  exists header, rest. split; [reflexivity|].
  rewrite splitFile_unfold in *.
  destruct (loop ParseFloat F maxPartBytes file header (List.length header)
              rest 0 initState) as [o st] eqn:L.
  simpl in *. subst o.
  apply loop_success in L as [[Hh _] [_ [Hd _]]]; [|apply Good_init].
  split; [exact Hh|]. exact Hd.
Qed.

(** C7: every part [splitFile] creates has the header of the source as
    its first row, whatever the outcome of the call; the one exception is
    a part that holds no row at all because the write of its header
    failed. *)
Theorem every_part_starts_with_header (obj : list Input + error)
    (file : File) (p : Part) :
  In p (parts (splitFile ParseFloat F maxPartBytes obj file)) ->
  exists header rest,
    obj = inl (InRecord header :: rest) /\
    (HeaderFirst header p \/ Unwritten F p).
Proof.
  destruct obj as [[|[header|e] rest]|e]; simpl; try contradiction.
  intros Hin. exists header, rest. split; [reflexivity|].
  destruct (loop ParseFloat F maxPartBytes file header (List.length header)
              rest 0 initState) as [o st] eqn:L.
  simpl in Hin.
  apply loop_settled in L; [|apply Good_init].
  rewrite Forall_forall in L. now apply L.
Qed.

(** C8: in a turn of the loop the byte count restarts from 0 exactly when
    a part is opened, and then grows by the bytes of the record (its
    comma-joined length plus one) when the record is kept and by nothing
    when it is dropped; so it does not decrease unless a part is opened.
    The sum is taken to fit Go's [int]. *)
Theorem byte_count_step (file : File) (header record : list string) (i : Z)
    (st st' : State) :
  0 <= bytesWritten st ->
  bytesWritten st + rowBytes record < 2 ^ 63 ->
  body ParseFloat F maxPartBytes file header i record st = Continue st' ->
  let base := if needPart maxPartBytes st then 0 else bytesWritten st in
  let grown := if kept ParseFloat record then rowBytes record else 0 in
  bytesWritten st' = base + grown /\
  base <= bytesWritten st' /\
  rowBytes record = len (String.concat "," record) + 1 /\
  List.length (writers st') =
    (List.length (writers st) + (if needPart maxPartBytes st then 1 else 0))%nat.
Proof.
  intros Hpos Hfit H. unfold body in H.
  destruct (rollover F maxPartBytes file header i st) as [st1|] eqn:R;
    [|discriminate].
  pose proof (rowBytes_pos record) as Hrow.
  assert (H1 : bytesWritten st1
                 = (if needPart maxPartBytes st then 0 else bytesWritten st)
               /\ List.length (writers st1) =
                    (List.length (writers st)
                     + (if needPart maxPartBytes st then 1 else 0))%nat).
  { apply rollover_continue in R as [[-> ->]|[-> ->]].
    - split; [reflexivity|]. lia.
    - split; [reflexivity|]. unfold opened, writers.
      cbn [retired current wc]. rewrite !length_app, length_map. simpl. lia. }
  destruct H1 as [Hb Hl]. cbv zeta. rewrite <- Hb, <- Hl.
  assert (Hle : bytesWritten st1 <= bytesWritten st).
  { rewrite Hb. destruct (needPart maxPartBytes st); lia. }
  assert (Hge : 0 <= bytesWritten st1).
  { rewrite Hb. destruct (needPart maxPartBytes st); lia. }
  apply filterRow_continue in H as [w [Hw [[Hk ->]|[Hk ->]]]]; rewrite Hk.
  - cbn [bytesWritten]. rewrite wrap_int_small by lia.
    split; [lia|]. split; [lia|]. split; [reflexivity|].
    unfold writers, current. cbn [retired wc].
    rewrite Hw, !length_app. reflexivity.
  - split; [lia|]. split; [lia|]. split; reflexivity.
Qed.

(** C10, first half: with a header of six fields or more no record is
    indexed out of range, whatever the source holds. *)
Lemma wide_header_no_panic (header : list string) (rest : list Input)
    (file : File) :
  (6 <= List.length header)%nat ->
  outcome (splitFile ParseFloat F maxPartBytes
             (inl (InRecord header :: rest)) file) <> Panic.
Proof.
  intros Hlen. rewrite splitFile_unfold.
  destruct (loop ParseFloat F maxPartBytes file header (List.length header)
              rest 0 initState) as [o st] eqn:L.
  simpl. now apply loop_no_panic in L.
Qed.

(** C10, second half: a first data record of fewer than six fields makes
    the call panic once the part is open. *)
Lemma narrow_record_panics (header r : list string) (rest : list Input)
    (file : File) :
  List.length r = List.length header ->
  (List.length r < 6)%nat ->
  writeFault F (partFileName (Name file) 0) 0 = None ->
  outcome (splitFile ParseFloat F maxPartBytes
             (inl (InRecord header :: InRecord r :: rest)) file) = Panic.
Proof.
  intros Hsame Hshort Hwrite. rewrite splitFile_unfold. cbn [loop].
  rewrite (readOne_same_length _ _ Hsame).
  unfold body. rewrite rollover_opens; [|reflexivity|intros w [=]|exact Hwrite].
  unfold filterRow.
  assert (Hn : nth_error r 5 = None) by (apply nth_error_None; lia).
  rewrite Hn. reflexivity.
Qed.

(** C10: column 5 is read with no check of the record's length.  For a
    source whose first data record the reader accepts (it has as many
    fields as the header) and whose first part can be opened: with six
    fields or more the call never panics, whatever follows the header;
    with fewer than six it panics at the first data record. *)
Theorem column5_needs_six_fields (header r : list string)
    (rest : list Input) (file : File) :
  List.length r = List.length header ->
  writeFault F (partFileName (Name file) 0) 0 = None ->
  ((6 <= List.length header)%nat ->
   forall inputs,
     outcome (splitFile ParseFloat F maxPartBytes
                (inl (InRecord header :: inputs)) file) <> Panic) /\
  ((List.length header < 6)%nat ->
   outcome (splitFile ParseFloat F maxPartBytes
              (inl (InRecord header :: InRecord r :: rest)) file) = Panic).
Proof.
  intros Hsame Hwrite. split.
  - intros Hwide inputs. now apply wide_header_no_panic.
  - intros Hnarrow. apply narrow_record_panics; [exact Hsame|lia|exact Hwrite].
Qed.

(** The byte count after a turn is at most the threshold plus the bytes of
    the record of that turn: the test of line 132 looks at the count as the
    previous turn left it. *)
Lemma overshoot_at_most_one_row (file : File) (header record : list string)
    (i : Z) (st st' : State) :
  0 <= maxPartBytes ->
  0 <= bytesWritten st ->
  body ParseFloat F maxPartBytes file header i record st = Continue st' ->
  bytesWritten st' <= maxPartBytes + rowBytes record.
Proof.
  intros Hmax Hpos H. unfold body in H.
  destruct (rollover F maxPartBytes file header i st) as [st1|] eqn:R;
    [|discriminate].
  pose proof (rowBytes_pos record) as Hrow.
  assert (Hb : 0 <= bytesWritten st1 <= maxPartBytes).
  { apply rollover_continue in R as [[Hneed ->]|[_ ->]].
    - unfold needPart in Hneed. destruct (wc st); [|discriminate].
      apply Z.ltb_ge in Hneed. lia.
    - simpl. lia. }
  apply filterRow_continue in H as [w [Hw [[Hk ->]|[Hk ->]]]].
  - cbn [bytesWritten].
    pose proof (wrap_int_le (bytesWritten st1 + rowBytes record)). lia.
  - lia.
Qed.

Lemma body_opens_keeps (file : File) (header record : list string) (i : Z)
    (st : State) :
  needPart maxPartBytes st = true ->
  (forall w, wc st = Some w -> closeFault F (pName w) = None) ->
  writeFault F (partFileName (Name file) i) 0 = None ->
  writeFault F (partFileName (Name file) i) 1 = None ->
  kept ParseFloat record = true ->
  body ParseFloat F maxPartBytes file header i record st =
  Continue (mkState (files st ++ map recorded (current st))
              (Some (mkPart (partFileName (Name file) i) [header; record]
                            false))
              (wrap_int (0 + rowBytes record))
              (retired st ++ map shut (current st))).
Proof.
  intros Hneed Hclose Hw0 Hw1 Hk. unfold body.
  rewrite rollover_opens by assumption.
  now rewrite (filterRow_kept record (opened file header i st) _ Hk eq_refl
                 Hw1).
Qed.

Lemma body_stays_keeps (file : File) (header record : list string) (i : Z)
    (st : State) (w : Part) :
  needPart maxPartBytes st = false ->
  wc st = Some w ->
  writeFault F (pName w) (List.length (pRows w)) = None ->
  kept ParseFloat record = true ->
  body ParseFloat F maxPartBytes file header i record st =
  Continue (mkState (files st)
              (Some (mkPart (pName w) (pRows w ++ [record]) (pClosed w)))
              (wrap_int (bytesWritten st + rowBytes record))
              (retired st)).
Proof.
  intros Hneed Hw Hf Hk. unfold body.
  rewrite rollover_stays by assumption.
  now rewrite (filterRow_kept record _ _ Hk Hw Hf).
Qed.

End SplitterFacts.

(** C6: with a threshold of 100 bytes and three kept records of 60 bytes
    each, [splitFile] writes two parts: the first holds records 1 and 2
    (its count is 120 after record 2, above the threshold only then), the
    second holds record 3.  In general the count after a turn is at most
    the threshold plus the bytes of that turn's record. *)
Theorem three_rows_two_parts (ParseFloat : string -> float + error)
    (header r1 r2 r3 : list string) (file : File) :
  List.length r1 = List.length header ->
  List.length r2 = List.length header ->
  List.length r3 = List.length header ->
  kept ParseFloat r1 = true ->
  kept ParseFloat r2 = true ->
  kept ParseFloat r3 = true ->
  rowBytes r1 = 60 -> rowBytes r2 = 60 -> rowBytes r3 = 60 ->
  parts (splitFile ParseFloat noFaults 100
           (inl [InRecord header; InRecord r1; InRecord r2; InRecord r3])
           file)
  = [ mkPart (partFileName (Name file) 0) [header; r1; r2] true;
      mkPart (partFileName (Name file) 2) [header; r3] true ] /\
  bytesWritten
    (snd (loop ParseFloat noFaults 100 file header (List.length header)
            [InRecord r1; InRecord r2] 0 initState)) = 120 /\
  (forall F maxPartBytes i record st st',
     0 <= maxPartBytes ->
     0 <= bytesWritten st ->
     body ParseFloat F maxPartBytes file header i record st = Continue st' ->
     bytesWritten st' <= maxPartBytes + rowBytes record).
Proof.
  intros L1 L2 L3 K1 K2 K3 B1 B2 B3.
  assert (S1 : body ParseFloat noFaults 100 file header 0 r1 initState =
    Continue (mkState [] (Some (mkPart (partFileName (Name file) 0)
                                       [header; r1] false)) 60 [])).
  { rewrite body_opens_keeps by first [assumption | reflexivity].
    now rewrite B1. }
  assert (S2 : body ParseFloat noFaults 100 file header 1 r2
      (mkState [] (Some (mkPart (partFileName (Name file) 0)
                                [header; r1] false)) 60 []) =
    Continue (mkState [] (Some (mkPart (partFileName (Name file) 0)
                                       [header; r1; r2] false)) 120 [])).
  { erewrite body_stays_keeps by first [assumption | reflexivity].
    cbn [bytesWritten]. now rewrite B2. }
  assert (S3 : body ParseFloat noFaults 100 file header 2 r3
      (mkState [] (Some (mkPart (partFileName (Name file) 0)
                                [header; r1; r2] false)) 120 []) =
    Continue (mkState [recorded (mkPart (partFileName (Name file) 0)
                                        [header; r1; r2] true)]
                (Some (mkPart (partFileName (Name file) 2)
                              [header; r3] false)) 60
                [mkPart (partFileName (Name file) 0) [header; r1; r2] true])).
  { rewrite body_opens_keeps by first [assumption | reflexivity].
    now rewrite B3. }
  split; [|split].
  - rewrite splitFile_unfold.
    rewrite (loop_record _ _ _ _ _ _ _ _ _ _ _ L1 S1).
    change (wrap_int (0 + 1)) with 1.
    rewrite (loop_record _ _ _ _ _ _ _ _ _ _ _ L2 S2).
    change (wrap_int (1 + 1)) with 2.
    rewrite (loop_record _ _ _ _ _ _ _ _ _ _ _ L3 S3).
    reflexivity.
  - rewrite (loop_record _ _ _ _ _ _ _ _ _ _ _ L1 S1).
    change (wrap_int (0 + 1)) with 1.
    rewrite (loop_record _ _ _ _ _ _ _ _ _ _ _ L2 S2).
    reflexivity.
  - intros F maxPartBytes i record st st'.
    apply overshoot_at_most_one_row.
Qed.

(** ** [splitFile] on sample sources *)

Lemma length_append (a b : string) :
  String.length (a ++ b) = (String.length a + String.length b)%nat.
Proof. induction a as [|c a IH]; simpl; [reflexivity|now rewrite IH]. Qed.

Lemma length_repeatChar (n : nat) (c : ascii) :
  String.length (repeatChar n c) = n.
Proof. induction n as [|n IH]; simpl; [reflexivity|now rewrite IH]. Qed.

Lemma rowBytes_bigRow (big : string) : rowBytes (bigRow big) = len big + 23.
Proof.
  unfold rowBytes, bigRow, len. cbn [String.concat].
  rewrite length_append, Nat2Z.inj_add, <- Z.add_assoc. f_equal.
Qed.

Lemma len_bigField : len bigField = MaxFileSize.
Proof.
  unfold len, bigField. rewrite length_repeatChar.
  apply Z2Nat.id. apply Z.leb_le. reflexivity.
Qed.

(** The run on [rolledSource]: the big record fills part 0, the second
    record rolls over to part 1, and the call ends at the fourth input. *)
Lemma rolledSource_run (big : string) (last : Input) :
  MaxFileSize < rowBytes (bigRow big) < 2 ^ 63 ->
  splitFile parseDecimal noFaults MaxFileSize (rolledSource big last)
            sampleFile
  = let '(o, st) :=
      loop parseDecimal noFaults MaxFileSize sampleFile sampleHeader 6
        [last] 2
        (mkState [mkFile OutBucket part0]
           (Some (mkPart part1 [sampleHeader; sampleRow "2" "3"] false))
           (rowBytes (sampleRow "2" "3"))
           [mkPart part0 [sampleHeader; bigRow big] true]) in
    mkResult o (writers st) Released.
Proof.
  intros Hbig. pose proof (eq_refl : MaxFileSize = 10485760) as Hmax.
  unfold rolledSource. rewrite splitFile_unfold.
  change (List.length sampleHeader) with 6%nat.
  erewrite loop_record;
    [|reflexivity
     |apply body_opens_keeps; first [reflexivity | intros w [=]]].
  erewrite loop_record;
    [|reflexivity
     |apply body_opens_keeps; try reflexivity].
  - reflexivity.
  - unfold needPart. cbn [wc bytesWritten].
    rewrite wrap_int_small by lia. apply Z.ltb_lt. lia.
Qed.

Lemma rolledSource_read_error (big : string) :
  MaxFileSize < rowBytes (bigRow big) < 2 ^ 63 ->
  splitFile parseDecimal noFaults MaxFileSize
            (rolledSource big (InRecord ["oops"])) sampleFile
  = mkResult (Return [] (Some ErrFieldCount))
      [ mkPart part0 [sampleHeader; bigRow big] true;
        mkPart part1 [sampleHeader; sampleRow "2" "3"] false ]
      Released.
Proof. intros Hbig. rewrite (rolledSource_run _ _ Hbig). reflexivity. Qed.

Lemma rolledSource_parse_error (big : string) :
  MaxFileSize < rowBytes (bigRow big) < 2 ^ 63 ->
  splitFile parseDecimal noFaults MaxFileSize
            (rolledSource big (InRecord (sampleRow "3" "abc"))) sampleFile
  = mkResult
      (Return [mkFile OutBucket part0]
         (Some (Wrapped (NumError "abc") "could not convert row 5 to float")))
      [ mkPart part0 [sampleHeader; bigRow big] true;
        mkPart part1 [sampleHeader; sampleRow "2" "3"] false ]
      Released.
Proof. intros Hbig. rewrite (rolledSource_run _ _ Hbig). reflexivity. Qed.

Lemma bigRow_exceeds_threshold :
  MaxFileSize < rowBytes (bigRow bigField) < 2 ^ 63.
Proof.
  rewrite rowBytes_bigRow, len_bigField.
  pose proof (eq_refl : MaxFileSize = 10485760). lia.
Qed.

(** C1: a source with a header and one kept record.  Part 0 is created,
    receives both rows and is closed at the end of input, and the call
    returns no [File] at all: line 178 closes the part without the
    [append] that line 136 makes at a rollover. *)
Theorem last_part_not_recorded :
  splitFile parseDecimal noFaults MaxFileSize
    (inl [InRecord sampleHeader; InRecord (sampleRow "1" "3")]) sampleFile
  = mkResult (Return [] None)
      [mkPart part0 [sampleHeader; sampleRow "1" "3"] true]
      Released.
Proof. reflexivity. Qed.

(** C3: a record whose quantity is -5.  Its absolute value exceeds
    0.0001, so the rule as the specification words it keeps the record;
    line 164 tests [row5-0. > 0.0001] without the absolute value, and the
    part receives the header only. *)
Theorem negative_quantity_dropped :
  parseDecimal "-5" = inl (-5)%float /\
  includedAbs (-5)%float = true /\
  included (-5)%float = false /\
  splitFile parseDecimal noFaults MaxFileSize
    (inl [InRecord sampleHeader; InRecord (sampleRow "1" "-5")]) sampleFile
  = mkResult (Return [] None) [mkPart part0 [sampleHeader] true] Released.
Proof. repeat split. Qed.

(** C4: after a rollover has recorded part 0, a record with a wrong
    number of fields makes [reader.Read] fail and line 128 returns [nil],
    not the recorded part; a parse failure at the same place (line 161)
    returns it. *)
Theorem read_error_discards_recorded_parts :
  splitFile parseDecimal noFaults MaxFileSize
            (rolledSource bigField (InRecord ["oops"])) sampleFile
  = mkResult (Return [] (Some ErrFieldCount))
      [ mkPart part0 [sampleHeader; bigRow bigField] true;
        mkPart part1 [sampleHeader; sampleRow "2" "3"] false ]
      Released
  /\
  splitFile parseDecimal noFaults MaxFileSize
            (rolledSource bigField (InRecord (sampleRow "3" "abc")))
            sampleFile
  = mkResult
      (Return [mkFile OutBucket part0]
         (Some (Wrapped (NumError "abc") "could not convert row 5 to float")))
      [ mkPart part0 [sampleHeader; bigRow bigField] true;
        mkPart part1 [sampleHeader; sampleRow "2" "3"] false ]
      Released.
Proof.
  split.
  - exact (rolledSource_read_error bigField bigRow_exceeds_threshold).
  - exact (rolledSource_parse_error bigField bigRow_exceeds_threshold).
Qed.

(** C9: a source whose first data record has a quantity that does not
    parse.  The call returns the error of line 161; the source stream is
    released by the deferred [r.Close()], and the writer of part 0 is left
    open: no [wc.Close()] stands on that way out. *)
Theorem writer_left_open_on_error :
  splitFile parseDecimal noFaults MaxFileSize
    (inl [InRecord sampleHeader; InRecord (sampleRow "1" "abc")]) sampleFile
  = mkResult
      (Return []
         (Some (Wrapped (NumError "abc") "could not convert row 5 to float")))
      [mkPart part0 [sampleHeader] false]
      Released.
Proof. reflexivity. Qed.

(** * Properties of the loop of [main] *)

Lemma nth_error_middle {A : Type} (pre post : list A) (x : A) :
  nth_error (pre ++ x :: post) (List.length pre) = Some x.
Proof. induction pre as [|a pre IH]; simpl; [reflexivity|exact IH]. Qed.

Lemma assign_middle {A : Type} (pre post : list A) (x y : A) :
  assign (pre ++ x :: post) (List.length pre) y = Some (pre ++ y :: post)%list.
Proof.
  unfold assign.
  assert (Hlt : Nat.ltb (List.length pre) (List.length (pre ++ x :: post))
                = true).
  { apply Nat.ltb_lt. rewrite length_app. simpl. lia. }
  rewrite Hlt. f_equal.
  rewrite firstn_app, Nat.sub_diag, firstn_all, skipn_app.
  rewrite skipn_all2 by lia.
  replace (S (List.length pre) - List.length pre)%nat with 1%nat by lia.
  simpl. now rewrite app_nil_r.
Qed.

Lemma assign2_middle (pre post : list (list string)) (filled todo : list string)
    (old id : string) :
  assign2 (pre ++ (filled ++ old :: todo) :: post)%list
          (List.length pre) (List.length filled) id
  = Some (pre ++ (filled ++ id :: todo) :: post)%list.
Proof.
  unfold assign2. now rewrite nth_error_middle, assign_middle, assign_middle.
Qed.

Lemma last_nonempty {A : Type} (l : list A) (a d d' : A) :
  last (a :: l) d = last (a :: l) d'.
Proof.
  revert a. induction l as [|b l IH]; intros a; [reflexivity|].
  change (last (b :: l) d = last (b :: l) d'). apply IH.
Qed.

Section OrchestratorFacts.

Variable W : Type.
Variable split : File -> W -> Outcome * W.
Variable RenderTemplate :
  string -> list (string * string) -> W -> (string * option error) * W.
Variable CreateExecution : string -> W -> (string * option error) * W.

(** The inner loop over parts that are all ingested: the slots of
    [filesExecs[i]] from [j] on receive the identifiers. *)
Lemma partsLoop_all_ok (parts : list File) (ids : list string) (w w' : W) :
  ingestsOk (ingestFile RenderTemplate CreateExecution) w parts ids w' ->
  forall (pre post : list (list string)) (filled todo : list string)
         (f fp0 : File) (out : list Line),
  List.length todo = List.length parts ->
  partsLoop RenderTemplate CreateExecution parts
            (List.length pre) (List.length filled)
            (mkVars (pre ++ (filled ++ todo) :: post)%list f fp0 None) out w
  = Finished (mkVars (pre ++ (filled ++ ids) :: post)%list f
                     (last parts fp0) None)
             out w'.
Proof.
  induction 1 as [w|w p id w1 ps ids w2 Hing Hrest IH];
    intros pre post filled todo f fp0 out Hlen.
  - destruct todo; [|discriminate]. reflexivity.
  - destruct todo as [|old todo]; [discriminate|].
    cbn [partsLoop]. rewrite Hing. cbn [filesExecs fi].
    rewrite assign2_middle.
    replace (filled ++ id :: todo)%list with ((filled ++ [id]) ++ todo)%list
      by (now rewrite <- app_assoc).
    replace (S (List.length filled)) with (List.length (filled ++ [id]))
      by (rewrite length_app; simpl; lia).
    rewrite IH by (simpl in Hlen; lia).
    rewrite <- app_assoc. simpl app.
    destruct ps as [|q ps]; [reflexivity|].
    now rewrite (last_nonempty ps q p fp0).
Qed.

(** A turn of the outer loop on a file whose split succeeds and whose
    parts are all ingested. *)
Lemma filesLoop_file_ok (f : File) (rest parts : list File)
    (ids : list string) (w w1 w2 : W)
    (pre post : list (list string)) (old : list string)
    (fi0 fp0 : File) (out : list Line) :
  split f w = (Return parts None, w1) ->
  ingestsOk (ingestFile RenderTemplate CreateExecution) w1 parts ids w2 ->
  filesLoop split RenderTemplate CreateExecution (f :: rest)
            (List.length pre)
            (mkVars (pre ++ old :: post)%list fi0 fp0 None) out w
  = filesLoop split RenderTemplate CreateExecution rest
              (S (List.length pre))
              (mkVars (pre ++ ids :: post)%list f (last parts fp0) None)
              (out ++ [PartsLine (Name f) (List.length parts)])%list w2.
Proof.
  intros Hsplit Hing. cbn [filesLoop]. rewrite Hsplit.
  cbn [filesExecs fp]. rewrite assign_middle.
  rewrite (partsLoop_all_ok parts ids w1 w2 Hing pre post []
             (repeat "" (List.length parts)))
    by apply repeat_length.
  reflexivity.
Qed.

(** C5: three files are found; the split of files 0 and 1 succeeds, every
    part of file 0 is ingested, part 0 of file 1 is ingested and the
    ingestion of its part 1 fails.  Then [main] stops there: the world is
    the one the failed call left (file 2 is not split and no later part is
    ingested); [filesExecs] holds the identifiers of all parts of file 0,
    for file 1 the identifier of part 0 followed by the empty strings the
    slice was made with, and nothing for file 2; and the report names
    file 1, its part 1 and the error. *)
Theorem abort_keeps_earlier_results (f0 f1 f2 : File)
    (parts0 : list File) (ids0 : list string)
    (p10 p11 : File) (rest1 : list File) (id10 junk : string) (e : error)
    (w0 w1 w2 w3 w4 w5 : W) :
  split f0 w0 = (Return parts0 None, w1) ->
  ingestsOk (ingestFile RenderTemplate CreateExecution) w1 parts0 ids0 w2 ->
  split f1 w2 = (Return (p10 :: p11 :: rest1) None, w3) ->
  ingestFile RenderTemplate CreateExecution p10 w3 = ((id10, None), w4) ->
  ingestFile RenderTemplate CreateExecution p11 w4 = ((junk, Some e), w5) ->
  main split RenderTemplate CreateExecution [f0; f1; f2] w0
  = Finished
      (mkVars [ ids0;
                id10 :: repeat "" (S (List.length rest1));
                [] ]
              f1 p11 (Some e))
      [ PartsLine (Name f0) (List.length parts0);
        PartsLine (Name f1) (2 + List.length rest1);
        ErrorReport f1 p11 e;
        FileLine f0; ExecsLine ids0;
        FileLine f1; ExecsLine (id10 :: repeat "" (S (List.length rest1)));
        FileLine f2; ExecsLine [] ]
      w5.
Proof.
  intros S0 I0 S1 I10 I11.
  assert (L : filesLoop split RenderTemplate CreateExecution [f0; f1; f2] 0
                (mkVars [[]; []; []] (mkFile "" "") (mkFile "" "") None)
                [] w0
              = Finished
                  (mkVars [ ids0;
                            id10 :: repeat "" (S (List.length rest1));
                            [] ]
                          f1 p11 (Some e))
                  [ PartsLine (Name f0) (List.length parts0);
                    PartsLine (Name f1) (2 + List.length rest1) ]
                  w5).
  { etransitivity.
    { exact (filesLoop_file_ok f0 [f1; f2] parts0 ids0 w0 w1 w2
               [] [[]; []] [] _ _ [] S0 I0). }
    cbn [filesLoop List.length app]. rewrite S1.
    cbn -[ingestFile]. rewrite I10.
    cbn -[ingestFile]. rewrite I11. reflexivity. }
  unfold main. cbn [List.length repeat]. rewrite L. reflexivity.
Qed.

End OrchestratorFacts.

(** * The properties at sample inputs *)

(** A split into three parts with a threshold of 20 bytes. *)
Lemma split_concat_filtered_witness :
  outcome (splitFile parseDecimal noFaults 20 sampleSource sampleFile)
    = Return [mkFile OutBucket part0; mkFile OutBucket part1] None /\
  exists header rest,
    sampleSource = inl (InRecord header :: rest) /\
    Forall (HeaderFirst header)
           (parts (splitFile parseDecimal noFaults 20 sampleSource
                             sampleFile)) /\
    allData (parts (splitFile parseDecimal noFaults 20 sampleSource
                              sampleFile))
      = filter (kept parseDecimal) (dataRows rest).
Proof.
  split; [reflexivity|].
  apply (split_concat_filtered parseDecimal noFaults 20 sampleSource
           sampleFile [mkFile OutBucket part0; mkFile OutBucket part1]).
  reflexivity.
Defined.

(** The second part of that split. *)
Lemma every_part_starts_with_header_witness :
  In (mkPart part1 [sampleHeader; sampleRow "4" "0.5"] true)
     (parts (splitFile parseDecimal noFaults 20 sampleSource sampleFile)) /\
  exists header rest,
    sampleSource = inl (InRecord header :: rest) /\
    (HeaderFirst header (mkPart part1 [sampleHeader; sampleRow "4" "0.5"] true)
     \/ Unwritten noFaults
          (mkPart part1 [sampleHeader; sampleRow "4" "0.5"] true)).
Proof.
  assert (Hin : In (mkPart part1 [sampleHeader; sampleRow "4" "0.5"] true)
                   (parts (splitFile parseDecimal noFaults 20 sampleSource
                                     sampleFile))).
  { right. left. reflexivity. }
  split; [exact Hin|].
  exact (every_part_starts_with_header parseDecimal noFaults 20 sampleSource
           sampleFile _ Hin).
Defined.

(** A turn that keeps a record in the part that is open. *)
Lemma byte_count_step_witness :
  (0 <= bytesWritten afterFirstRow /\
   bytesWritten afterFirstRow + rowBytes (sampleRow "2" "7") < 2 ^ 63 /\
   body parseDecimal noFaults MaxFileSize sampleFile sampleHeader 1
        (sampleRow "2" "7") afterFirstRow
   = Continue afterSecondRow) /\
  (bytesWritten afterSecondRow
   = bytesWritten afterFirstRow + rowBytes (sampleRow "2" "7") /\
   bytesWritten afterFirstRow <= bytesWritten afterSecondRow /\
   rowBytes (sampleRow "2" "7")
   = len (String.concat "," (sampleRow "2" "7")) + 1 /\
   List.length (writers afterSecondRow)
   = (List.length (writers afterFirstRow) + 0)%nat).
Proof.
  assert (H0 : 0 <= bytesWritten afterFirstRow) by (simpl; lia).
  assert (H1 : bytesWritten afterFirstRow + rowBytes (sampleRow "2" "7")
               < 2 ^ 63) by reflexivity.
  assert (H2 : body parseDecimal noFaults MaxFileSize sampleFile sampleHeader
                 1 (sampleRow "2" "7") afterFirstRow
               = Continue afterSecondRow) by reflexivity.
  split; [auto|].
  exact (byte_count_step parseDecimal noFaults MaxFileSize sampleFile
           sampleHeader (sampleRow "2" "7") 1 afterFirstRow afterSecondRow
           H0 H1 H2).
Defined.

(** Three records of 60 bytes. *)
Lemma three_rows_two_parts_witness :
  (rowBytes (row60 "r1") = 60 /\ kept parseDecimal (row60 "r1") = true) /\
  parts (splitFile parseDecimal noFaults 100
           (inl [ InRecord sampleHeader; InRecord (row60 "r1");
                  InRecord (row60 "r2"); InRecord (row60 "r3") ])
           sampleFile)
  = [ mkPart part0 [sampleHeader; row60 "r1"; row60 "r2"] true;
      mkPart part2 [sampleHeader; row60 "r3"] true ] /\
  bytesWritten
    (snd (loop parseDecimal noFaults 100 sampleFile sampleHeader 6
            [InRecord (row60 "r1"); InRecord (row60 "r2")] 0 initState))
  = 120 /\
  (forall F maxPartBytes i record st st',
     0 <= maxPartBytes ->
     0 <= bytesWritten st ->
     body parseDecimal F maxPartBytes sampleFile sampleHeader i record st
       = Continue st' ->
     bytesWritten st' <= maxPartBytes + rowBytes record).
Proof.
  split; [split; reflexivity|].
  exact (three_rows_two_parts parseDecimal sampleHeader
           (row60 "r1") (row60 "r2") (row60 "r3") sampleFile
           eq_refl eq_refl eq_refl eq_refl eq_refl eq_refl
           eq_refl eq_refl eq_refl).
Defined.

(** A source of two columns, and one of six. *)
Lemma column5_needs_six_fields_witness :
  outcome (splitFile parseDecimal noFaults MaxFileSize
             (inl [InRecord ["id"; "quantity"]; InRecord ["1"; "3"]])
             sampleFile) = Panic /\
  outcome (splitFile parseDecimal noFaults MaxFileSize sampleSource
             sampleFile) <> Panic.
Proof.
  split.
  - apply (column5_needs_six_fields parseDecimal noFaults MaxFileSize
             ["id"; "quantity"] ["1"; "3"] [] sampleFile eq_refl eq_refl).
    simpl. lia.
  - apply (column5_needs_six_fields parseDecimal noFaults MaxFileSize
             sampleHeader (sampleRow "1" "3") [] sampleFile eq_refl eq_refl).
    simpl. lia.
Defined.

(** [main] over the splitter itself, in [sampleWorld]: file c is never
    split. *)
Lemma abort_keeps_earlier_results_witness :
  exists w5,
    main (splitIn parseDecimal 20) renderIn executeIn
         [fileA; fileB; fileC] sampleWorld
    = Finished
        (mkVars [ ["exec:mx_sellout/20230801-a.csv_part_000000.csv"];
                  ["exec:mx_sellout/20230801-b.csv_part_000000.csv"; ""];
                  [] ]
                fileB partB1
                (Some (APIError "POST executions returned 500")))
        [ PartsLine (Name fileA) 1;
          PartsLine (Name fileB) 2;
          ErrorReport fileB partB1 (APIError "POST executions returned 500");
          FileLine fileA;
          ExecsLine ["exec:mx_sellout/20230801-a.csv_part_000000.csv"];
          FileLine fileB;
          ExecsLine ["exec:mx_sellout/20230801-b.csv_part_000000.csv"; ""];
          FileLine fileC; ExecsLine [] ]
        w5 /\
    map (fun c => match c with CallSplit f => Name f | _ => "" end)
        (filter (fun c => match c with CallSplit _ => true | _ => false end)
                (calls w5))
    = [Name fileA; Name fileB].
Proof.
  eexists. split.
  - eapply (abort_keeps_earlier_results World (splitIn parseDecimal 20)
             renderIn executeIn fileA fileB fileC
             [partA0] ["exec:mx_sellout/20230801-a.csv_part_000000.csv"]
             partB0 partB1 []
             "exec:mx_sellout/20230801-b.csv_part_000000.csv" ""
             (APIError "POST executions returned 500")
             sampleWorld).
    + reflexivity.
    + eapply ingestsOk_cons; [reflexivity|apply ingestsOk_nil].
    + reflexivity.
    + reflexivity.
    + reflexivity.
  - reflexivity.
Defined.

(** * Further properties of the splitter *)

Section SplitterInvariants.

Variable ParseFloat : string -> float + error.
Variable F : Faults.
Variable maxPartBytes : Z.

(** An invariant of the turns of the loop carries over to every way the
    loop can end; [R] is what is known of the records of the source. *)
Lemma loop_invariant (file : File) (header : list string)
    (R : list string -> Prop)
    (P : State -> Prop) (Q : Outcome -> State -> Prop) :
  (forall i record st st',
     R record -> P st ->
     body ParseFloat F maxPartBytes file header i record st = Continue st' ->
     P st') ->
  (forall i record st st' o,
     R record -> P st ->
     body ParseFloat F maxPartBytes file header i record st = Exit o st' ->
     Q o st') ->
  (forall st o st', P st -> finish F st = (o, st') -> Q o st') ->
  (forall st e, P st -> Q (Return [] (Some e)) st) ->
  forall inputs fpr i st o st',
    Forall R (dataRows inputs) ->
    P st ->
    loop ParseFloat F maxPartBytes file header fpr inputs i st = (o, st') ->
    Q o st'.
Proof.
  intros Hcont Hexit Hfin Hread inputs.
  induction inputs as [|x rest IH]; intros fpr i st o st' HR HP H.
  - simpl in H. eauto.
  - cbn [loop] in H.
    destruct (readOne fpr x) as [[record [e|]] fpr'] eqn:E.
    + destruct (is_EOF e); [eauto|]. injection H as <- <-. eauto.
    + apply readOne_record in E as [-> _]. simpl in HR.
      inversion HR as [|? ? Hr Hrest]; subst.
      destruct (body ParseFloat F maxPartBytes file header i record st)
        as [st1|o1 st1] eqn:B.
      * eauto.
      * injection H as <- <-. eauto.
Qed.

Lemma Forall_True {A : Type} (l : list A) : Forall (fun _ => True) l.
Proof. induction l; constructor; auto. Qed.

(** A turn that ends the call ends it in a panic or with an error and the
    files accumulated so far. *)
Lemma body_exit_shape (file : File) (header record : list string) (i : Z)
    (st st' : State) (o : Outcome) :
  body ParseFloat F maxPartBytes file header i record st = Exit o st' ->
  o = Panic \/ exists e, o = Return (files st') (Some e).
Proof.
  unfold body.
  destruct (rollover F maxPartBytes file header i st) as [st1|o1 st1] eqn:E.
  - intros H. apply filterRow_exit in H as [-> [[-> _]|[e ->]]]; eauto.
  - intros [= <- <-]. apply rollover_exit in E as [e [-> _]]. eauto.
Qed.

Lemma rollover_continue_close_ok (file : File) (header : list string)
    (i : Z) (st st' : State) :
  rollover F maxPartBytes file header i st = Continue st' ->
  needPart maxPartBytes st = true ->
  forall w, wc st = Some w -> closeFault F (pName w) = None.
Proof.
  unfold rollover, closeCurrent, Close. intros H Hneed w Hw.
  rewrite Hneed, Hw in H.
  destruct (closeFault F (pName w)); [discriminate|reflexivity].
Qed.

Lemma rollover_exit_cases (file : File) (header : list string) (i : Z)
    (st st' : State) (o : Outcome) :
  rollover F maxPartBytes file header i st = Exit o st' ->
  (exists w e,
     wc st = Some w /\ closeFault F (pName w) = Some e /\
     o = Return (files st) (Some e) /\
     st' = mkState (files st) (Some (shut w)) (bytesWritten st)
                   (retired st)) \/
  (exists e,
     (forall w, wc st = Some w -> closeFault F (pName w) = None) /\
     writeFault F (partFileName (Name file) i) 0 = Some e /\
     o = Return (files st ++ map recorded (current st)) (Some e) /\
     st' = mkState (files st ++ map recorded (current st))
             (Some (mkPart (partFileName (Name file) i) [] false))
             (bytesWritten st)
             (retired st ++ map shut (current st))).
Proof.
  unfold rollover, closeCurrent, openPart, Write, Close, current.
  destruct (needPart maxPartBytes st); [|discriminate].
  destruct st as [fs [w|] b rt]; simpl.
  - destruct (closeFault F (pName w)) as [e|] eqn:C.
    + intros [= <- <-]. left. exists w, e. auto.
    + simpl. destruct (writeFault F _ 0) as [e|] eqn:E; [|discriminate].
      intros [= <- <-]. right. exists e. repeat split; auto.
      now intros w0 [= <-].
  - destruct (writeFault F _ 0) as [e|] eqn:E; [|discriminate].
    intros [= <- <-]. right. exists e. rewrite !app_nil_r.
    repeat split; auto. intros w0 [=].
Qed.

Lemma Recorded_body (file : File) (header record : list string) (i : Z)
    (st st' : State) :
  Recorded F st ->
  body ParseFloat F maxPartBytes file header i record st = Continue st' ->
  Recorded F st'.
Proof.
  unfold body. intros HR H.
  destruct (rollover F maxPartBytes file header i st) as [st1|] eqn:R;
    [|discriminate].
  assert (H1 : Recorded F st1).
  { pose proof (rollover_continue_close_ok _ _ _ _ _ R) as Hclose.
    apply rollover_continue in R as [[_ ->]|[Hneed ->]]; [exact HR|].
    destruct HR as [Hf Hc]. unfold Recorded, opened.
    cbn [files retired]. split.
    - now rewrite Hf, !map_app, map_map.
    - apply Forall_app; split; [exact Hc|].
      unfold current. destruct (wc st) as [w|] eqn:Hw; [|constructor].
      constructor; [|constructor]. split; [reflexivity|].
      exact (Hclose Hneed w eq_refl). }
  apply filterRow_continue in H as [w [Hw [[_ ->]|[_ ->]]]]; exact H1.
Qed.

Lemma Recorded_exit (file : File) (header record : list string) (i : Z)
    (st st' : State) (o : Outcome) :
  Recorded F st ->
  body ParseFloat F maxPartBytes file header i record st = Exit o st' ->
  Recorded F st'.
Proof.
  unfold body. intros HR H.
  destruct (rollover F maxPartBytes file header i st) as [st1|o1 st1] eqn:R.
  - pose proof (rollover_continue_close_ok _ _ _ _ _ R) as Hclose.
    apply filterRow_exit in H as [-> _].
    apply rollover_continue in R as [[_ ->]|[Hneed ->]]; [exact HR|].
    destruct HR as [Hf Hc]. unfold Recorded, opened.
    cbn [files retired]. split.
    + now rewrite Hf, !map_app, map_map.
    + apply Forall_app; split; [exact Hc|].
      unfold current. destruct (wc st) as [w|] eqn:Hw; [|constructor].
      constructor; [|constructor]. split; [reflexivity|].
      exact (Hclose Hneed w eq_refl).
  - injection H as <- <-. destruct HR as [Hf Hc].
    apply rollover_exit_cases in R
      as [[w [e [Hw [_ [_ ->]]]]]|[e [Hclose [_ [_ ->]]]]].
    + split; assumption.
    + unfold Recorded. cbn [files retired]. split.
      * now rewrite Hf, !map_app, map_map.
      * apply Forall_app; split; [exact Hc|].
        unfold current. destruct (wc st) as [w|] eqn:Hw; [|constructor].
        constructor; [|constructor]. split; [reflexivity|].
        exact (Hclose w eq_refl).
Qed.

Lemma length_current (st : State) : (List.length (current st) <= 1)%nat.
Proof. unfold current. destruct (wc st); simpl; lia. Qed.

(** X1: whatever the outcome, the files a call returns name parts that
    were created, in creation order from the first one on, and on each of
    them [wc.Close()] was called and returned no error. *)
Theorem returned_files_are_closed_parts (obj : list Input + error)
    (file : File) (fs : list File) (err : option error) :
  outcome (splitFile ParseFloat F maxPartBytes obj file) = Return fs err ->
  exists ps qs,
    parts (splitFile ParseFloat F maxPartBytes obj file) = (ps ++ qs)%list /\
    fs = map recorded ps /\
    Forall (ClosedOk F) ps.
Proof.
  destruct obj as [[|[header|e] rest]|e]; simpl;
    try (intros [= <- <-]; exists [], []; repeat split; constructor).
  destruct (loop ParseFloat F maxPartBytes file header (List.length header)
              rest 0 initState) as [o st] eqn:L.
  simpl. intros ->.
  refine (loop_invariant file header (fun _ => True) (Recorded F)
            (fun o st => forall fs err, o = Return fs err ->
               exists ps qs, writers st = (ps ++ qs)%list /\
                 fs = map recorded ps /\ Forall (ClosedOk F) ps)
            _ _ _ _ rest _ _ _ _ _ (Forall_True _) _ L fs err eq_refl).
  - intros i record s s' _. apply Recorded_body.
  - intros i record s s' o _ HR B fs0 err0 ->.
    pose proof (Recorded_exit _ _ _ _ _ _ _ HR B) as [Hf Hc].
    apply body_exit_shape in B as [B|[e B]]; [discriminate|].
    injection B as -> _.
    exists (retired s'), (current s'). auto.
  - intros s o s' [Hf Hc] Hfin fs0 err0 ->.
    destruct (finish_spec F s) as [s0 [E [Efs [Ert Ecur]]]].
    rewrite E in Hfin. injection Hfin as <- <- <-.
    exists (retired s0), (current s0). unfold writers.
    rewrite Ert. auto.
  - intros s e _ fs0 err0 [= <- <-]. exists [], (writers s).
    repeat split; constructor.
  - split; [reflexivity|constructor].
Qed.

(** X2: at most one writer is left open: every part but the last one
    created has been closed, whatever the outcome, and after a call that
    returns no error the last one is closed too. *)
Theorem only_last_part_may_be_open (obj : list Input + error) (file : File) :
  exists ps last,
    parts (splitFile ParseFloat F maxPartBytes obj file) = (ps ++ last)%list /\
    (List.length last <= 1)%nat /\
    Forall (fun p => pClosed p = true) ps /\
    (forall fs,
       outcome (splitFile ParseFloat F maxPartBytes obj file) = Return fs None ->
       Forall (fun p => pClosed p = true) last).
Proof.
  destruct obj as [[|[header|e] rest]|e]; simpl;
    try (exists [], []; repeat split; simpl; try lia; constructor).
  destruct (loop ParseFloat F maxPartBytes file header (List.length header)
              rest 0 initState) as [o st] eqn:L.
  simpl.
  assert (H : Forall (ClosedOk F) (retired st) /\
              (forall fs, o = Return fs None ->
                 Forall (fun p => pClosed p = true) (current st))).
  { refine (loop_invariant file header (fun _ => True) (Recorded F)
              (fun o st => Forall (ClosedOk F) (retired st) /\
                 (forall fs, o = Return fs None ->
                    Forall (fun p => pClosed p = true) (current st)))
              _ _ _ _ rest _ _ _ _ _ (Forall_True _) _ L).
    - intros i record s s' _. apply Recorded_body.
    - intros i record s s' o0 _ HR B.
      pose proof (Recorded_exit _ _ _ _ _ _ _ HR B) as [_ Hc].
      split; [exact Hc|]. intros fs ->.
      apply body_exit_shape in B as [B|[e B]]; discriminate.
    - intros s o0 s' [_ Hc] Hfin.
      destruct (finish_spec F s) as [s0 [E [_ [Ert Ecur]]]].
      rewrite E in Hfin. injection Hfin as <- <-.
      rewrite Ert, Ecur. split; [exact Hc|]. intros fs _.
      apply Forall_map. apply Forall_forall. reflexivity.
    - intros s e [_ Hc]. split; [exact Hc|]. intros fs [=].
    - split; [reflexivity|constructor]. }
  destruct H as [Hc Hlast].
  exists (retired st), (current st).
  split; [reflexivity|]. split; [apply length_current|].
  split; [|exact Hlast].
  eapply Forall_impl; [|exact Hc]. now intros p [Hp _].
Qed.

(** ** The size of the parts *)

Lemma rowsBytes_app (xs ys : list (list string)) :
  rowsBytes (xs ++ ys) = rowsBytes xs + rowsBytes ys.
Proof.
  induction xs as [|x xs IH]; simpl; [reflexivity|]. rewrite IH. lia.
Qed.

Lemma partData_snoc (w : Part) (record : list string) :
  pRows w <> [] ->
  partData (mkPart (pName w) (pRows w ++ [record]) (pClosed w))
  = (partData w ++ [record])%list.
Proof.
  unfold partData. simpl. destruct (pRows w); [contradiction|reflexivity].
Qed.

(** After the rollover step the count is within the threshold. *)
Lemma Sized_opened (file : File) (header : list string) (i : Z)
    (st : State) :
  needPart maxPartBytes st = true ->
  Sized maxPartBytes st ->
  Sized maxPartBytes (opened file header i st).
Proof.
  intros Hneed [Hpos [Hret Hcur]].
  unfold Sized, opened, needPart, current in *.
  destruct st as [fs [w|] b rt]; cbn [bytesWritten retired wc map] in *.
  - inversion Hcur as [|? ? [Hrows [Hno Hb]] _]; subst.
    split; [lia|]. split.
    + apply Forall_app; split; [exact Hret|].
      constructor; [|constructor]. split; [|exact Hno].
      unfold Full. change (partData (shut w)) with (partData w).
      now apply Z.ltb_lt.
    + constructor; [|constructor]. split; [discriminate|].
      split; [now left|reflexivity].
  - split; [lia|]. split.
    + rewrite app_nil_r. exact Hret.
    + constructor; [|constructor]. split; [discriminate|].
      split; [now left|reflexivity].
Qed.

Lemma Sized_rollover (file : File) (header : list string) (i : Z)
    (st st' : State) :
  0 <= maxPartBytes ->
  Sized maxPartBytes st ->
  rollover F maxPartBytes file header i st = Continue st' ->
  Sized maxPartBytes st' /\ bytesWritten st' <= maxPartBytes.
Proof.
  intros Hmax HS H.
  apply rollover_continue in H as [[Hneed ->]|[Hneed ->]].
  - split; [exact HS|].
    unfold needPart in Hneed. destruct (wc st); [|discriminate].
    apply Z.ltb_ge in Hneed. exact Hneed.
  - split; [now apply Sized_opened|simpl; lia].
Qed.

Lemma Sized_body (file : File) (header record : list string) (i : Z)
    (st st' : State) :
  0 <= maxPartBytes ->
  maxPartBytes + rowBytes record < 2 ^ 63 ->
  Sized maxPartBytes st ->
  body ParseFloat F maxPartBytes file header i record st = Continue st' ->
  Sized maxPartBytes st'.
Proof.
  unfold body. intros Hmax Hfit HS H.
  destruct (rollover F maxPartBytes file header i st) as [st1|] eqn:E;
    [|discriminate].
  destruct (Sized_rollover _ _ _ _ _ Hmax HS E) as [[Hpos [Hret Hcur]] Hle].
  pose proof (rowBytes_pos record) as Hrow.
  apply filterRow_continue in H as [w [Hw [[_ ->]|[_ ->]]]].
  - unfold Sized, current in *. rewrite Hw in Hcur.
    inversion Hcur as [|? ? [Hrows [Hno Hb]] _]; subst.
    cbn [bytesWritten retired wc]. rewrite wrap_int_small by lia.
    split; [lia|]. split; [exact Hret|].
    constructor; [|constructor]. split.
    + simpl. destruct (pRows w); discriminate.
    + unfold NotOver. rewrite (partData_snoc _ _ Hrows). split.
      * right. exists (partData w), record. split; [reflexivity|lia].
      * rewrite rowsBytes_app. simpl. lia.
  - repeat split; assumption.
Qed.

Lemma Sized_exit (file : File) (header record : list string) (i : Z)
    (st st' : State) (o : Outcome) :
  0 <= maxPartBytes ->
  Sized maxPartBytes st ->
  body ParseFloat F maxPartBytes file header i record st = Exit o st' ->
  Forall (fun p => Full maxPartBytes p /\ NotOver maxPartBytes p)
         (retired st') /\
  Forall (NotOver maxPartBytes) (current st').
Proof.
  unfold body. intros Hmax HS H.
  assert (Hweak : forall s, Sized maxPartBytes s ->
            Forall (fun p => Full maxPartBytes p /\ NotOver maxPartBytes p)
                   (retired s) /\
            Forall (NotOver maxPartBytes) (current s)).
  { intros s [_ [Hret Hcur]]. split; [exact Hret|].
    eapply Forall_impl; [|exact Hcur]. now intros w [_ [Hno _]]. }
  destruct (rollover F maxPartBytes file header i st) as [st1|o1 st1] eqn:E.
  - apply filterRow_exit in H as [-> _].
    apply Hweak. now apply (Sized_rollover _ _ _ _ _ Hmax HS E).
  - injection H as <- <-.
    assert (Hneed : needPart maxPartBytes st = true).
    { unfold rollover in E. destruct (needPart maxPartBytes st);
        [reflexivity|discriminate]. }
    apply rollover_exit_cases in E
      as [[w [e [Hw [_ [_ ->]]]]]|[e [_ [_ [_ ->]]]]].
    + destruct (Hweak _ HS) as [Hret Hcur]. cbn [retired]. split; [exact Hret|].
      unfold current in *. rewrite Hw in Hcur. cbn [wc].
      inversion Hcur; subst. constructor; [assumption|constructor].
    + destruct (Hweak _ (Sized_opened file header i st Hneed HS))
        as [Hret _].
      split; [exact Hret|]. constructor; [|constructor]. now left.
Qed.

(** X3: the threshold is a trigger for the next part, not a ceiling.  The
    threshold being non-negative and every record small enough for the
    count to fit Go's [int]: in every part the data rows but the last stay
    within the threshold, and every part but the last one created exceeds
    it (which is why the next one was opened). *)
Theorem parts_sized_by_threshold (header : list string) (rest : list Input)
    (file : File) :
  0 <= maxPartBytes ->
  Forall (fun r => maxPartBytes + rowBytes r < 2 ^ 63) (dataRows rest) ->
  exists ps last,
    parts (splitFile ParseFloat F maxPartBytes
             (inl (InRecord header :: rest)) file) = (ps ++ last)%list /\
    (List.length last <= 1)%nat /\
    Forall (fun p => Full maxPartBytes p /\ NotOver maxPartBytes p) ps /\
    Forall (NotOver maxPartBytes) last.
Proof.
  intros Hmax Hfit. rewrite splitFile_unfold.
  destruct (loop ParseFloat F maxPartBytes file header (List.length header)
              rest 0 initState) as [o st] eqn:L.
  cbn [parts].
  assert (H : Forall (fun p => Full maxPartBytes p /\ NotOver maxPartBytes p)
                     (retired st) /\
              Forall (NotOver maxPartBytes) (current st)).
  { refine (loop_invariant file header
              (fun r => maxPartBytes + rowBytes r < 2 ^ 63)
              (Sized maxPartBytes)
              (fun _ st =>
                 Forall (fun p => Full maxPartBytes p /\ NotOver maxPartBytes p)
                        (retired st) /\
                 Forall (NotOver maxPartBytes) (current st))
              _ _ _ _ rest _ _ _ _ _ Hfit _ L).
    - intros i record s s' Hr HS. now apply Sized_body.
    - intros i record s s' o0 _ HS. now apply Sized_exit.
    - intros s o0 s' [_ [Hret Hcur]] Hfin.
      destruct (finish_spec F s) as [s0 [E [_ [Ert Ecur]]]].
      rewrite E in Hfin. injection Hfin as <- <-.
      rewrite Ert, Ecur. split; [exact Hret|].
      apply Forall_map. eapply Forall_impl; [|exact Hcur].
      now intros w [_ [Hno _]].
    - intros s e [_ [Hret Hcur]]. split; [exact Hret|].
      eapply Forall_impl; [|exact Hcur]. now intros w [_ [Hno _]].
    - split; [simpl; lia|]. split; constructor. }
  destruct H as [Hret Hcur].
  exists (retired st), (current st).
  split; [reflexivity|]. split; [apply length_current|]. split; assumption.
Qed.

(** ** What is written, whatever the outcome *)

Lemma body_exit_data (file : File) (header record : list string) (i : Z)
    (st st' : State) (o : Outcome) :
  Good header st ->
  body ParseFloat F maxPartBytes file header i record st = Exit o st' ->
  allData (writers st') = allData (writers st).
Proof.
  unfold body. intros G H.
  destruct (rollover F maxPartBytes file header i st) as [st1|o1 st1] eqn:E.
  - apply filterRow_exit in H as [-> _].
    apply rollover_continue in E as [[_ ->]|[_ ->]]; [reflexivity|].
    now apply Good_opened.
  - injection H as <- <-.
    apply rollover_exit_cases in E
      as [[w [e [Hw [_ [_ ->]]]]]|[e [_ [_ [_ ->]]]]];
      unfold writers, current; cbn [retired wc].
    + rewrite Hw, !allData_app, !allData_single. reflexivity.
    + rewrite !allData_app, allData_shut, allData_single.
      unfold partData. simpl. now rewrite app_nil_r.
Qed.

Lemma loop_prefix (file : File) (header : list string)
    (inputs : list Input) :
  forall (fpr : nat) (i : Z) (st st' : State) (o : Outcome),
  Good header st ->
  loop ParseFloat F maxPartBytes file header fpr inputs i st = (o, st') ->
  exists tail,
    (allData (writers st) ++ filter (kept ParseFloat) (dataRows inputs))%list
    = (allData (writers st') ++ tail)%list.
Proof.
  assert (Hfin : forall st st' o, finish F st = (o, st') ->
            allData (writers st') = allData (writers st)).
  { intros st st' o H.
    destruct (finish_spec F st) as [st0 [E [_ [Ert Ecur]]]].
    rewrite E in H. injection H as <- <-. unfold writers.
    now rewrite Ert, Ecur, !allData_app, allData_shut. }
  induction inputs as [|x rest IH]; intros fpr i st st' o G H.
  - simpl in H. exists []. now rewrite (Hfin _ _ _ H).
  - cbn [loop] in H.
    destruct (readOne fpr x) as [[record [e|]] fpr'] eqn:E.
    + destruct (is_EOF e).
      * rewrite (Hfin _ _ _ H). eauto.
      * injection H as <- <-. eauto.
    + apply readOne_record in E as [-> _].
      destruct (body ParseFloat F maxPartBytes file header i record st)
        as [st1|o1 st1] eqn:B.
      * destruct (Good_body _ _ _ _ _ _ _ _ _ B G) as [G1 Hd1].
        destruct (IH _ _ _ _ _ G1 H) as [tail Ht].
        exists tail. rewrite <- Ht, Hd1, <- app_assoc. f_equal.
        simpl. destruct (kept ParseFloat record); reflexivity.
      * injection H as <- <-.
        rewrite (body_exit_data _ _ _ _ _ _ _ G B). eauto.
Qed.

(** X4: whatever the outcome (an error, a panic), the data rows written
    so far, part after part, are the first kept records of the source in
    their order: no row is written twice, out of order, or without having
    passed the test. *)
Theorem written_rows_are_a_prefix (header : list string) (rest : list Input)
    (file : File) :
  exists tail,
    filter (kept ParseFloat) (dataRows rest)
    = (allData (parts (splitFile ParseFloat F maxPartBytes
                         (inl (InRecord header :: rest)) file))
       ++ tail)%list.
Proof.
  rewrite splitFile_unfold.
  destruct (loop ParseFloat F maxPartBytes file header (List.length header)
              rest 0 initState) as [o st] eqn:L.
  cbn [parts].
  apply loop_prefix with (header := header) in L; [|apply Good_init].
  exact L.
Qed.

(** X5: a source with no data record gives no part; a source with a data
    record, split without error, gives at least one part, also when no
    record passes the test. *)
Theorem parts_iff_data_rows (header : list string) (rest : list Input)
    (file : File) :
  (dataRows rest = [] ->
   parts (splitFile ParseFloat F maxPartBytes
            (inl (InRecord header :: rest)) file) = []) /\
  (forall fs,
     outcome (splitFile ParseFloat F maxPartBytes
                (inl (InRecord header :: rest)) file) = Return fs None ->
     dataRows rest <> [] ->
     parts (splitFile ParseFloat F maxPartBytes
              (inl (InRecord header :: rest)) file) <> []).
Proof.
  rewrite splitFile_unfold. split.
  - intros Hrows. destruct rest as [|[r|e] rest]; [reflexivity|discriminate|].
    cbn [loop readOne]. destruct (is_EOF e); reflexivity.
  - destruct (loop ParseFloat F maxPartBytes file header (List.length header)
                rest 0 initState) as [o st] eqn:L.
    cbn [outcome parts]. intros fs -> Hrows.
    apply loop_success in L as [_ [_ [_ Hcur]]]; [|apply Good_init].
    specialize (Hcur (or_intror Hrows)).
    unfold writers. destruct (current st); [contradiction|].
    now destruct (retired st).
Qed.

Lemma loop_all_dropped (file : File) (header : list string)
    (inputs : list Input) :
  forall (fpr : nat) (i : Z) (st st' : State) (fs : list File),
  current st <> [] ->
  needPart maxPartBytes st = false ->
  filter (kept ParseFloat) (dataRows inputs) = [] ->
  loop ParseFloat F maxPartBytes file header fpr inputs i st
    = (Return fs None, st') ->
  fs = files st /\
  writers st' = (retired st ++ map shut (current st))%list.
Proof.
  assert (Hfin : forall st st' fs, finish F st = (Return fs None, st') ->
            fs = files st /\
            writers st' = (retired st ++ map shut (current st))%list).
  { intros st st' fs H.
    destruct (finish_spec F st) as [st0 [E [_ [Ert Ecur]]]].
    rewrite E in H. injection H as <- <-. unfold writers.
    now rewrite Ert, Ecur. }
  induction inputs as [|x rest IH]; intros fpr i st st' fs Hcur Hneed Hf H.
  - simpl in H. eauto.
  - cbn [loop] in H.
    destruct (readOne fpr x) as [[record [e|]] fpr'] eqn:E.
    + destruct (is_EOF e); [eauto|discriminate].
    + apply readOne_record in E as [-> _]. simpl in Hf.
      destruct (kept ParseFloat record) eqn:K; [discriminate|].
      unfold body in H. rewrite rollover_stays in H by exact Hneed.
      destruct (filterRow ParseFloat F record st) as [st1|o1 st1] eqn:B.
      * apply filterRow_continue in B as [w [_ [[K' _]|[_ ->]]]];
          [congruence|]. eauto.
      * injection H as -> <-.
        apply filterRow_exit in B as [_ [[B _]|[e B]]]; discriminate.
Qed.

(** X6: the threshold not being negative, a source whose data records
    are all dropped by the test, split without error, gives one part that
    holds the header alone, and the call returns no file. *)
Theorem all_dropped_one_header_part (header : list string)
    (rest : list Input) (file : File) (fs : list File) :
  0 <= maxPartBytes ->
  dataRows rest <> [] ->
  filter (kept ParseFloat) (dataRows rest) = [] ->
  outcome (splitFile ParseFloat F maxPartBytes
             (inl (InRecord header :: rest)) file) = Return fs None ->
  fs = [] /\
  parts (splitFile ParseFloat F maxPartBytes
           (inl (InRecord header :: rest)) file)
  = [mkPart (partFileName (Name file) 0) [header] true].
Proof.
  intros Hmax Hrows Hdrop. rewrite splitFile_unfold.
  destruct rest as [|[r|e] rest]; [contradiction|clear Hrows|contradiction].
  simpl in Hdrop. destruct (kept ParseFloat r) eqn:K; [discriminate|].
  cbn [loop].
  destruct (readOne (List.length header) (InRecord r))
    as [[record [e|]] fpr'] eqn:E.
  { destruct (is_EOF e) eqn:Heof; [|discriminate].
    apply readOne_error in E as [E|[_ ->]]; discriminate. }
  apply readOne_record in E as [[= <-] _].
  destruct (body ParseFloat F maxPartBytes file header 0 r initState)
    as [st1|o1 st1] eqn:B.
  2:{ cbn [outcome]. intros ->.
      apply body_exit_shape in B as [B|[e B]]; discriminate. }
  assert (Hst : st1 = opened file header 0 initState).
  { unfold body in B.
    destruct (rollover F maxPartBytes file header 0 initState)
      as [s|] eqn:Ro; [|discriminate].
    apply rollover_continue in Ro as [[Hn _]|[_ ->]]; [discriminate|].
    apply filterRow_continue in B as [w [_ [[K' _]|[_ ->]]]];
      [congruence|reflexivity]. }
  subst st1.
  destruct (loop ParseFloat F maxPartBytes file header fpr' rest
              (wrap_int (0 + 1)) (opened file header 0 initState))
    as [o st] eqn:L.
  cbn [outcome parts]. intros ->.
  apply loop_all_dropped in L as [-> ->].
  - split; reflexivity.
  - discriminate.
  - unfold needPart. simpl. apply Z.ltb_ge. exact Hmax.
  - exact Hdrop.
Qed.

(** ** What a call without error has checked *)

Lemma filterRow_continue_parsed (record : list string) (st st' : State) :
  filterRow ParseFloat F record st = Continue st' ->
  Parsed ParseFloat record.
Proof.
  unfold filterRow, Parsed.
  destruct (nth_error record 5) as [field|]; [|discriminate].
  destruct (ParseFloat field) as [row5|] eqn:E; [|discriminate].
  intros _. eauto.
Qed.

Lemma loop_success_rows (file : File) (header : list string)
    (inputs : list Input) :
  forall (fpr : nat) (i : Z) (st st' : State) (fs : list File),
  loop ParseFloat F maxPartBytes file header fpr inputs i st
    = (Return fs None, st') ->
  Forall (fun r => (fpr <> 0%nat -> List.length r = fpr) /\
                   Parsed ParseFloat r)
         (dataRows inputs).
Proof.
  induction inputs as [|x rest IH]; intros fpr i st st' fs H.
  - constructor.
  - cbn [loop] in H.
    destruct (readOne fpr x) as [[record [e|]] fpr'] eqn:E.
    + destruct (is_EOF e) eqn:Heof; [|discriminate].
      apply readOne_error in E as [->|[_ ->]]; [constructor|discriminate].
    + apply readOne_record in E as [-> Hfpr]. simpl.
      destruct (body ParseFloat F maxPartBytes file header i record st)
        as [st1|o1 st1] eqn:B.
      * apply IH in H. constructor.
        -- split; [intros Hn; now apply Hfpr|].
           unfold body in B.
           destruct (rollover F maxPartBytes file header i st);
             [|discriminate].
           now apply filterRow_continue_parsed in B.
        -- eapply Forall_impl; [|exact H].
           intros r [Hr Hp]. split; [|exact Hp].
           intros Hn. destruct (Hfpr Hn) as [_ ->]. now apply Hr.
      * injection H as -> <-.
        apply body_exit_shape in B as [B|[e B]]; discriminate.
Qed.

(** X17: a call that returns no error has read every data
    record of the source with as many fields as the header and has parsed
    the column 5 of each. *)
Theorem success_means_rows_checked (header : list string)
    (rest : list Input) (file : File) (fs : list File) :
  outcome (splitFile ParseFloat F maxPartBytes
             (inl (InRecord header :: rest)) file) = Return fs None ->
  Forall (fun r => (List.length header <> 0%nat ->
                    List.length r = List.length header) /\
                   Parsed ParseFloat r)
         (dataRows rest).
Proof.
  rewrite splitFile_unfold.
  destruct (loop ParseFloat F maxPartBytes file header (List.length header)
              rest 0 initState) as [o st] eqn:L.
  cbn [outcome]. intros ->. now apply loop_success_rows in L.
Qed.

End SplitterInvariants.

(** * The names of the parts *)












Section PartNames.

Variable ParseFloat : string -> float + error.
Variable F : Faults.
Variable maxPartBytes : Z.








End PartNames.

(** * Further properties of the loop of [main] *)

Lemma last_cons_shift {A : Type} (l : list A) (a d : A) :
  last (a :: l) d = last l a.
Proof.
  destruct l as [|b l]; [reflexivity|].
  change (last (b :: l) d = last (b :: l) a). apply last_nonempty.
Qed.

Lemma last_app_default {A : Type} (l1 l2 : list A) (d : A) :
  last (l1 ++ l2) d = last l2 (last l1 d).
Proof.
  revert d. induction l1 as [|a l1 IH]; intros d; [reflexivity|].
  rewrite <- app_comm_cons, !last_cons_shift. apply IH.
Qed.

Lemma skipn_length_app {A : Type} (l1 l2 : list A) :
  skipn (List.length l1) (l1 ++ l2) = l2.
Proof. induction l1 as [|a l1 IH]; [reflexivity|exact IH]. Qed.

Lemma skipn_S_length_app {A : Type} (l1 l2 : list A) (x : A) :
  skipn (S (List.length l1)) (l1 ++ x :: l2) = l2.
Proof. induction l1 as [|a l1 IH]; [reflexivity|exact IH]. Qed.

Lemma report_lines (files : list File) (fe : list (list string)) :
  forall n,
  (n + List.length fe <= List.length files)%nat ->
  report files fe n = Some (reportLines (skipn n files) fe).
Proof.
  induction fe as [|k fe IH]; intros n Hlen; simpl in *.
  - unfold reportLines. now destruct (skipn n files).
  - destruct (nth_error files n) as [f|] eqn:E.
    2:{ apply nth_error_None in E. lia. }
    rewrite IH by lia.
    apply nth_error_split in E as [l1 [l2 [-> <-]]].
    now rewrite skipn_S_length_app, skipn_length_app.
Qed.

Lemma assign_in_range {A : Type} (l : list A) (n : nat) (x : A) :
  (n < List.length l)%nat ->
  exists l', assign l n x = Some l' /\ List.length l' = List.length l /\
             nth_error l' n = Some x.
Proof.
  intros Hlt. destruct (nth_error l n) as [y|] eqn:E.
  2:{ apply nth_error_None in E. lia. }
  apply nth_error_split in E as [l1 [l2 [-> <-]]].
  exists (l1 ++ x :: l2)%list. rewrite assign_middle, nth_error_middle.
  rewrite !length_app. simpl. auto.
Qed.

Section OrchestratorRuns.

Variable W : Type.
Variable split : File -> W -> Outcome * W.
Variable RenderTemplate :
  string -> list (string * string) -> W -> (string * option error) * W.
Variable CreateExecution : string -> W -> (string * option error) * W.

(** The inner loop over parts of which the first ones are ingested. *)
Lemma partsLoop_prefix_ok (parts : list File) (ids : list string) (w w' : W) :
  ingestsOk (ingestFile RenderTemplate CreateExecution) w parts ids w' ->
  forall (rest : list File) (pre post : list (list string))
         (filled olds todo : list string) (f fp0 : File) (out : list Line),
  List.length olds = List.length parts ->
  partsLoop RenderTemplate CreateExecution (parts ++ rest)
            (List.length pre) (List.length filled)
            (mkVars (pre ++ (filled ++ olds ++ todo) :: post)%list f fp0 None)
            out w
  = partsLoop RenderTemplate CreateExecution rest
              (List.length pre) (List.length filled + List.length parts)
              (mkVars (pre ++ (filled ++ ids ++ todo) :: post)%list f
                      (last parts fp0) None)
              out w'.
Proof.
  induction 1 as [w|w p id w1 ps ids w2 Hing Hrest IH];
    intros rest pre post filled olds todo f fp0 out Hlen.
  - destruct olds; [|discriminate]. simpl. now rewrite Nat.add_0_r.
  - destruct olds as [|old olds]; [discriminate|].
    cbn [partsLoop app]. rewrite Hing. cbn [filesExecs fi].
    rewrite assign2_middle.
    replace (filled ++ id :: olds ++ todo)%list
      with ((filled ++ [id]) ++ olds ++ todo)%list
      by (now rewrite <- app_assoc).
    replace (S (List.length filled)) with (List.length (filled ++ [id]))
      by (rewrite length_app; simpl; lia).
    rewrite IH by (simpl in Hlen; lia).
    rewrite <- app_assoc, length_app, last_cons_shift. simpl.
    f_equal. lia.
Qed.

(** The outer loop over files of which the first ones are split and
    ingested without error. *)
Lemma filesLoop_prefix_ok (done : list File) (partss : list (list File))
    (idss : list (list string)) (w w' : W) :
  runsOk split (ingestFile RenderTemplate CreateExecution)
         w done partss idss w' ->
  forall (rest : list File) (pre olds post : list (list string))
         (fi0 fp0 : File) (out : list Line),
  List.length olds = List.length done ->
  filesLoop split RenderTemplate CreateExecution (done ++ rest)
            (List.length pre)
            (mkVars (pre ++ olds ++ post)%list fi0 fp0 None) out w
  = filesLoop split RenderTemplate CreateExecution rest
              (List.length pre + List.length done)
              (mkVars (pre ++ idss ++ post)%list (last done fi0)
                      (last (List.concat partss) fp0) None)
              (out ++ partsLines done partss)%list w'.
Proof.
  induction 1 as [w|w f parts w1 ids w2 fs partss idss w3 Hs Hi Hrest IH];
    intros rest pre olds post fi0 fp0 out Hlen.
  - destruct olds; [|discriminate]. simpl.
    now rewrite Nat.add_0_r, app_nil_r.
  - destruct olds as [|old olds]; [discriminate|].
    change (((f :: fs) ++ rest)%list) with (f :: (fs ++ rest))%list.
    change (((old :: olds) ++ post)%list) with (old :: (olds ++ post))%list.
    rewrite (filesLoop_file_ok W split RenderTemplate CreateExecution
               f (fs ++ rest) parts ids w w1 w2 pre (olds ++ post) old
               fi0 fp0 out Hs Hi).
    replace (pre ++ ids :: olds ++ post)%list
      with ((pre ++ [ids]) ++ olds ++ post)%list
      by (now rewrite <- app_assoc).
    replace (S (List.length pre)) with (List.length (pre ++ [ids]))
      by (rewrite length_app; simpl; lia).
    rewrite IH by (simpl in Hlen; lia).
    rewrite <- !app_assoc, length_app, last_cons_shift. simpl.
    rewrite last_app_default. unfold partsLines. simpl.
    f_equal. lia.
Qed.

Lemma runsOk_lengths (files : list File) (partss : list (list File))
    (idss : list (list string)) (w w' : W) :
  runsOk split (ingestFile RenderTemplate CreateExecution)
         w files partss idss w' ->
  List.length partss = List.length files /\
  List.length idss = List.length files.
Proof.
  induction 1 as [|? ? ? ? ? ? ? ? ? ? ? ? ? [IH1 IH2]]; simpl; auto.
Qed.

(** X8: when every file is split and every part ingested without error,
    [main] ends with the identifiers of every part of every file, in
    order, prints one line of parts per file and then every file with its
    identifiers, and reports no error. *)
Theorem all_files_ingested (files : list File) (partss : list (list File))
    (idss : list (list string)) (w w' : W) :
  runsOk split (ingestFile RenderTemplate CreateExecution)
         w files partss idss w' ->
  main split RenderTemplate CreateExecution files w
  = Finished (mkVars idss (last files noFile)
                     (last (List.concat partss) noFile) None)
             (partsLines files partss ++ reportLines files idss)%list w'.
Proof.
  intros Hrun. unfold main.
  pose proof (runsOk_lengths _ _ _ _ _ Hrun) as [_ Hlen].
  pose proof (filesLoop_prefix_ok files partss idss w w' Hrun []
                [] (repeat [] (List.length files)) [] noFile noFile []
                (repeat_length _ _)) as L.
  cbn [app List.length Nat.add] in L. rewrite !app_nil_r in L.
  fold noFile. rewrite L. cbn [filesLoop err filesExecs].
  rewrite report_lines by (simpl; lia). reflexivity.
Qed.

(** X9: when the split of a file fails after the files before it went
    through, [main] stops at once: nothing is ingested for that file nor
    split after it (the world is the one the failed split left), the rows
    of that file and of the later ones stay empty, and the report names
    the file, the error and, as part, the last part ingested before (the
    zero [File] when there is none). *)
Theorem split_failure_aborts (done later : list File) (f : File)
    (partss : list (list File)) (idss : list (list string))
    (ps : list File) (e : error) (w w1 w2 : W) :
  runsOk split (ingestFile RenderTemplate CreateExecution)
         w done partss idss w1 ->
  split f w1 = (Return ps (Some e), w2) ->
  main split RenderTemplate CreateExecution (done ++ f :: later) w
  = Finished
      (mkVars (idss ++ repeat [] (S (List.length later)))%list f
              (last (List.concat partss) noFile) (Some e))
      (partsLines done partss
       ++ [ PartsLine (Name f) (List.length ps);
            ErrorReport f (last (List.concat partss) noFile) e ]
       ++ reportLines (done ++ f :: later)
            (idss ++ repeat [] (S (List.length later))))%list
      w2.
Proof.
  intros Hrun Hsplit. unfold main.
  pose proof (runsOk_lengths _ _ _ _ _ Hrun) as [_ Hlen].
  rewrite length_app, repeat_app. cbn [List.length].
  pose proof (filesLoop_prefix_ok done partss idss w w1 Hrun (f :: later)
                [] (repeat [] (List.length done))
                (repeat [] (S (List.length later))) noFile noFile []
                (repeat_length _ _)) as L.
  cbn [app List.length Nat.add] in L.
  fold noFile. rewrite L. cbn [filesLoop]. rewrite Hsplit.
  cbn [err filesExecs fi fp].
  rewrite report_lines
    by (rewrite !length_app, repeat_length; simpl; lia).
  simpl skipn. rewrite <- !app_assoc. reflexivity.
Qed.

(** X10: when the ingestion of a part fails after the files and the parts
    before it went through, [main] stops at once (the world is the one the
    failed call left): the row of that file holds the identifiers obtained
    so far followed by the empty strings of the slots not reached, the
    rows of the later files stay empty, and the report names the file, the
    part and the error. *)
Theorem ingest_failure_aborts (done later : list File) (f : File)
    (partss : list (list File)) (idss : list (list string))
    (pdone prest : list File) (p : File) (ids : list string)
    (junk : string) (e : error) (w w1 w2 w3 w4 : W) :
  runsOk split (ingestFile RenderTemplate CreateExecution)
         w done partss idss w1 ->
  split f w1 = (Return (pdone ++ p :: prest) None, w2) ->
  ingestsOk (ingestFile RenderTemplate CreateExecution) w2 pdone ids w3 ->
  ingestFile RenderTemplate CreateExecution p w3 = ((junk, Some e), w4) ->
  main split RenderTemplate CreateExecution (done ++ f :: later) w
  = Finished
      (mkVars (idss ++ (ids ++ repeat "" (S (List.length prest)))
                    :: repeat [] (List.length later))%list
              f p (Some e))
      (partsLines done partss
       ++ [ PartsLine (Name f) (List.length (pdone ++ p :: prest));
            ErrorReport f p e ]
       ++ reportLines (done ++ f :: later)
            (idss ++ (ids ++ repeat "" (S (List.length prest)))
                  :: repeat [] (List.length later)))%list
      w4.
Proof.
  intros Hrun Hsplit Hids Hfail. unfold main.
  pose proof (runsOk_lengths _ _ _ _ _ Hrun) as [_ Hlen].
  rewrite length_app, repeat_app. cbn [List.length].
  pose proof (filesLoop_prefix_ok done partss idss w w1 Hrun (f :: later)
                [] (repeat [] (List.length done))
                (repeat [] (S (List.length later))) noFile noFile []
                (repeat_length _ _)) as L.
  cbn [app List.length Nat.add] in L.
  fold noFile. rewrite L. cbn [filesLoop]. rewrite Hsplit.
  cbn [filesExecs fp repeat].
  rewrite <- Hlen at 1. rewrite assign_middle.
  replace (repeat "" (List.length (pdone ++ p :: prest)))
    with (repeat "" (List.length pdone)
          ++ repeat "" (S (List.length prest)))%list
    by (rewrite length_app, repeat_app; reflexivity).
  pose proof (partsLoop_prefix_ok pdone ids w2 w3 Hids (p :: prest)
                idss (repeat [] (List.length later)) []
                (repeat "" (List.length pdone))
                (repeat "" (S (List.length prest))) f
                (last (List.concat partss) noFile)
                (partsLines done partss
                 ++ [PartsLine (Name f)
                       (List.length (pdone ++ p :: prest))])%list
                (repeat_length _ _)) as P.
  cbn [app List.length Nat.add] in P. rewrite Hlen in *.
  rewrite P. cbn [partsLoop]. rewrite Hfail. cbn [err filesExecs fi fp].
  rewrite report_lines
    by (rewrite !length_app; simpl; rewrite repeat_length; lia).
  simpl skipn. rewrite <- !app_assoc. reflexivity.
Qed.

(** ** Indices stay in range *)

Lemma partsLoop_in_range (parts : list File) :
  forall (i j : nat) (v : Vars) (out : list Line) (w : W) (row : list string),
  nth_error (filesExecs v) i = Some row ->
  (j + List.length parts <= List.length row)%nat ->
  exists v' w',
    partsLoop RenderTemplate CreateExecution parts i j v out w
      = Finished v' out w' /\
    List.length (filesExecs v') = List.length (filesExecs v).
Proof.
  induction parts as [|p parts IH]; intros i j v out w row Hrow Hlen.
  - simpl. eauto.
  - cbn [partsLoop List.length] in *.
    destruct (ingestFile RenderTemplate CreateExecution p w)
      as [[id [e|]] w1]; [simpl; eauto|].
    unfold assign2. rewrite Hrow.
    destruct (assign_in_range row j id) as [row' [-> [Hl' _]]]; [lia|].
    destruct (assign_in_range (filesExecs v) i row')
      as [fe [-> [Hfe Hnth]]].
    { apply nth_error_Some. congruence. }
    destruct (IH i (S j) (mkVars fe (fi v) p None) out w1 row' Hnth)
      as [v' [w' [E Hv']]]; [lia|].
    exists v', w'. split; [exact E|]. simpl in Hv'. congruence.
Qed.

Lemma filesLoop_in_range (rest : list File) :
  forall (i : nat) (v : Vars) (out : list Line) (w : W),
  (i + List.length rest = List.length (filesExecs v))%nat ->
  match filesLoop split RenderTemplate CreateExecution rest i v out w with
  | Finished v' _ _ => List.length (filesExecs v') = List.length (filesExecs v)
  | Crashed _ _ => exists f w1 w2, split f w1 = (Panic, w2)
  end.
Proof.
  induction rest as [|f rest IH]; intros i v out w Hlen.
  - reflexivity.
  - cbn [filesLoop List.length] in *.
    destruct (split f w) as [[parts [e|]|] w1] eqn:Hs;
      [reflexivity| |eauto].
    destruct (assign_in_range (filesExecs v) i
                (repeat "" (List.length parts)))
      as [fe [-> [Hfe Hnth]]]; [lia|].
    destruct (partsLoop_in_range parts i 0
                (mkVars fe f (fp v) None)
                (out ++ [PartsLine (Name f) (List.length parts)])%list w1
                (repeat "" (List.length parts)) Hnth)
      as [v' [w' [-> Hv']]]; [rewrite repeat_length; lia|].
    simpl in Hv'. destruct (err v'); [congruence|].
    specialize (IH (S i) v'
                  (out ++ [PartsLine (Name f) (List.length parts)])%list w').
    destruct (filesLoop split RenderTemplate CreateExecution rest (S i) v'
                (out ++ [PartsLine (Name f) (List.length parts)])%list w');
      [rewrite IH by lia; congruence|apply IH; lia].
Qed.

(** X11: the index assignments of [main] never go out of range.  The
    process dies only if a call of [splitFile] panics; otherwise [main]
    returns with one row of [filesExecs] per file found and its output
    ends with every file found, in order, each with its row. *)
Theorem main_crashes_only_on_split_panic (files : list File) (w : W) :
  match main split RenderTemplate CreateExecution files w with
  | Finished v out _ =>
      List.length (filesExecs v) = List.length files /\
      exists before, out = (before ++ reportLines files (filesExecs v))%list
  | Crashed _ _ => exists f w1 w2, split f w1 = (Panic, w2)
  end.
Proof.
  unfold main.
  pose proof (filesLoop_in_range files 0
                (mkVars (repeat [] (List.length files)) (mkFile "" "")
                        (mkFile "" "") None) [] w) as L.
  cbn [filesExecs] in L. rewrite repeat_length in L.
  specialize (L eq_refl).
  destruct (filesLoop split RenderTemplate CreateExecution files 0
              (mkVars (repeat [] (List.length files)) (mkFile "" "")
                      (mkFile "" "") None) [] w) as [v out w1|out w1];
    [|exact L].
  rewrite report_lines by (simpl; lia). simpl skipn.
  split; [exact L|]. eauto.
Qed.

End OrchestratorRuns.

(** * [findFiles] *)

Lemma listing_cases (l : list (string + error)) :
  (exists names, l = map inl names) \/
  (exists pre e post, l = (map inl pre ++ inr e :: post)%list).
Proof.
  induction l as [|[name|e] l [[names ->]|[pre [e' [post ->]]]]].
  - left. now exists [].
  - left. now exists (name :: names).
  - right. now exists (name :: pre), e', post.
  - right. now exists [], e, (map inl names).
  - right. now exists [], e, (map inl pre ++ inr e' :: post)%list.
Qed.

Lemma collectNames_names (names acc : list string) :
  collectNames (map inl names) acc = Some (acc ++ names)%list.
Proof.
  revert acc. induction names as [|n names IH]; intros acc; simpl.
  - now rewrite app_nil_r.
  - rewrite IH, <- app_assoc. reflexivity.
Qed.

Lemma collectNames_error (pre : list string) (e : error)
    (post : list (string + error)) (acc : list string) :
  collectNames (map inl pre ++ inr e :: post) acc = None.
Proof.
  revert acc. induction pre as [|n pre IH]; intros acc; simpl; auto.
Qed.

Lemma fillFiles_map (bucket : string) (names : list string) :
  forall (filled olds : list File),
  List.length olds = List.length names ->
  fillFiles bucket names (List.length filled) (filled ++ olds)
  = Some (filled ++ map (mkFile bucket) names)%list.
Proof.
  induction names as [|n names IH]; intros filled olds Hlen.
  - destruct olds; [reflexivity|discriminate].
  - destruct olds as [|old olds]; [discriminate|].
    cbn [fillFiles]. rewrite assign_middle.
    replace (filled ++ mkFile bucket n :: olds)%list
      with ((filled ++ [mkFile bucket n]) ++ olds)%list
      by (now rewrite <- app_assoc).
    replace (S (List.length filled))
      with (List.length (filled ++ [mkFile bucket n]))
      by (rewrite length_app; simpl; lia).
    rewrite IH by (simpl in Hlen; lia).
    now rewrite <- app_assoc.
Qed.

(** X12: [findFiles] returns one [File] per object listed, in the order
    of the listing, each with the bucket that was queried, and never an
    error; it panics exactly when the listing yields an error. *)
Theorem findFiles_follows_listing
    (Objects : string -> Query -> list (string + error))
    (today bucket : string) :
  match findFiles Objects today bucket with
  | Return files err =>
      err = None /\
      Objects bucket (findQuery today) = map inl (map Name files) /\
      Forall (fun f => Bucket f = bucket) files
  | Panic => exists e, In (inr e) (Objects bucket (findQuery today))
  end.
Proof.
  unfold findFiles.
  destruct (listing_cases (Objects bucket (findQuery today)))
    as [[names ->]|[pre [e [post ->]]]].
  - rewrite collectNames_names. cbn [app].
    pose proof (fillFiles_map bucket names []
                  (repeat (mkFile "" "") (List.length names))
                  (repeat_length _ _)) as Hfill.
    cbn [app List.length] in Hfill. rewrite Hfill.
    split; [reflexivity|]. split.
    + f_equal. rewrite map_map. symmetry.
      erewrite map_ext; [apply map_id|reflexivity].
    + apply Forall_map. apply Forall_forall. reflexivity.
  - rewrite collectNames_error. exists e.
    apply in_or_app. right. now left.
Qed.

(** * Package [client] *)

Section ClientFacts.

Variable W : Type.
Variable urlParse : string -> option error.
Variable quote : string -> string.
Variable JoinPath : string -> string -> string * option error.
Variable NewRequest : string -> string -> option error.
Variable Do : Client.Request -> W -> (Client.Response + error) * W.
Variable Marshal : list (string * string) -> string.
Variable Unmarshal : string -> string * option error.

Lemma applyExecutionsOptions_spec (os : list ClientOpt) :
  forall cfg,
  Client.applyExecutionsOptions (map (executionsOption urlParse quote) os) cfg
  = match firstInvalid urlParse os with
    | Some (s, e) =>
        inr (Wrapped (Wrapped e (quote s ++ " is not a valid URL"))
                     "could not create executions client")
    | None =>
        inl (Client.mkExecutionsConfig
               (lastEndpoint (Client.execEndpoint cfg) os)
               (lastToken (Client.execToken cfg) os))
    end.
Proof.
  induction os as [|[s|s] os IH]; intros cfg; simpl.
  - now destruct cfg.
  - unfold Client.WithExecutionsEndpoint, Client.validateEndpoint.
    destruct (urlParse s); [reflexivity|]. now rewrite IH.
  - now rewrite IH.
Qed.

Lemma applyTemplatesOptions_spec (os : list ClientOpt) :
  forall cfg,
  Client.applyTemplatesOptions (map (templatesOption urlParse quote) os) cfg
  = match firstInvalid urlParse os with
    | Some (s, e) =>
        inr (Wrapped (Wrapped e (quote s ++ " is not a valid URL"))
                     "could not create templates client")
    | None =>
        inl (Client.mkTemplatesConfig
               (lastEndpoint (Client.tmplEndpoint cfg) os)
               (lastToken (Client.tmplToken cfg) os))
    end.
Proof.
  induction os as [|[s|s] os IH]; intros cfg; simpl.
  - now destruct cfg.
  - unfold Client.WithTemplatesEndpoint, Client.validateEndpoint.
    destruct (urlParse s); [reflexivity|]. now rewrite IH.
  - now rewrite IH.
Qed.

(** X13: a client made from endpoint and token options takes the last
    endpoint and the last token given (the empty string when none is);
    when [url.Parse] turns an endpoint down, no client is made and the
    error is that of the first such endpoint, wrapped twice. *)
Theorem new_client_last_option_wins (os : list ClientOpt) :
  Client.NewExecutionsClient (map (executionsOption urlParse quote) os)
  = match firstInvalid urlParse os with
    | Some (s, e) =>
        inr (Wrapped (Wrapped e (quote s ++ " is not a valid URL"))
                     "could not create executions client")
    | None =>
        inl (Client.mkExecutionsClient (lastEndpoint "" os)
                                       (lastToken "" os))
    end
  /\
  Client.NewTemplatesClient (map (templatesOption urlParse quote) os)
  = match firstInvalid urlParse os with
    | Some (s, e) =>
        inr (Wrapped (Wrapped e (quote s ++ " is not a valid URL"))
                     "could not create templates client")
    | None =>
        inl (Client.mkTemplatesClient (lastEndpoint "" os)
                                      (lastToken "" os))
    end.
Proof.
  unfold Client.NewExecutionsClient, Client.NewTemplatesClient.
  rewrite applyExecutionsOptions_spec, applyTemplatesOptions_spec.
  destruct (firstInvalid urlParse os) as [[s e]|]; split; reflexivity.
Qed.

(** ** The two HTTP calls *)

Lemma CreateExecution_ok (c : Client.ExecutionsClient) (flow : string)
    (w w' : W) (id : string) :
  Client.CreateExecution W quote JoinPath NewRequest Do Unmarshal c flow w
    = ((id, None), w') <->
  exists url res,
    JoinPath (Client.executionsEndpoint c) "executions" = (url, None) /\
    NewRequest "POST" url = None /\
    Do (Client.mkRequest "POST" url
          (Client.headers (Client.executionsToken c)) flow) w
      = (inl res, w') /\
    Client.StatusCode res = Client.StatusAccepted /\
    Unmarshal (Client.Body res) = (id, None).
Proof.
  unfold Client.CreateExecution. split.
  - destruct (JoinPath (Client.executionsEndpoint c) "executions")
      as [url [e|]]; [discriminate|].
    destruct (NewRequest "POST" url) eqn:N; [discriminate|].
    destruct (Do _ w) as [[res|e] w1] eqn:D; [|discriminate].
    destruct (Client.StatusCode res =? Client.StatusAccepted) eqn:S;
      [|discriminate].
    simpl. destruct (Unmarshal (Client.Body res)) as [id' [e|]] eqn:U;
      [discriminate|].
    intros [= <- <-]. exists url, res. apply Z.eqb_eq in S. repeat split; assumption.
  - intros [url [res [-> [-> [-> [S ->]]]]]].
    apply Z.eqb_eq in S. now rewrite S.
Qed.

Lemma RenderTemplate_ok (c : Client.TemplatesClient) (name : string)
    (args : list (string * string)) (w w' : W) (body : string) :
  Client.RenderTemplate W quote JoinPath NewRequest Do Marshal c name args w
    = ((body, None), w') <->
  exists url res,
    fst (JoinPath (Client.templatesEndpoint c)
                  ("templates/" ++ name ++ "/render")) = url /\
    NewRequest "POST" url = None /\
    Do (Client.mkRequest "POST" url
          (Client.headers (Client.templatesToken c)) (Marshal args)) w
      = (inl res, w') /\
    Client.StatusCode res = Client.StatusOK /\
    Client.BodyErr res = None /\
    Client.Body res = body.
Proof.
  unfold Client.RenderTemplate.
  destruct (JoinPath (Client.templatesEndpoint c)
                     ("templates/" ++ name ++ "/render")) as [url je].
  cbn [fst]. split.
  - destruct (NewRequest "POST" url) eqn:N; [discriminate|].
    destruct (Do _ w) as [[res|e] w1] eqn:D; [|discriminate].
    destruct (Client.StatusCode res =? Client.StatusOK) eqn:S;
      [|discriminate].
    simpl. destruct (Client.BodyErr res) eqn:B; [discriminate|].
    intros [= <- <-]. exists url, res. apply Z.eqb_eq in S. repeat split; assumption.
  - intros [url' [res [<- [-> [-> [S [-> <-]]]]]]].
    apply Z.eqb_eq in S. now rewrite S.
Qed.

(** X14: [CreateExecution] returns an identifier without error exactly
    when the path joins, the request is built, the one POST of the flow
    (content type set, bearer token set when there is one) is answered
    with status 202 and the body decodes to that identifier; the result of
    reading the body is not looked at.  With an error the identifier is
    empty. *)
Theorem CreateExecution_needs_202 (c : Client.ExecutionsClient)
    (flow : string) (w w' : W) (id : string) :
  (Client.CreateExecution W quote JoinPath NewRequest Do Unmarshal c flow w
     = ((id, None), w') <->
   exists url res,
     JoinPath (Client.executionsEndpoint c) "executions" = (url, None) /\
     NewRequest "POST" url = None /\
     Do (Client.mkRequest "POST" url
           (Client.headers (Client.executionsToken c)) flow) w
       = (inl res, w') /\
     Client.StatusCode res = 202 /\
     Unmarshal (Client.Body res) = (id, None)) /\
  (forall e,
     Client.CreateExecution W quote JoinPath NewRequest Do Unmarshal c flow w
       = ((id, Some e), w') ->
     id = "").
Proof.
  split; [apply CreateExecution_ok|].
  unfold Client.CreateExecution. intros e.
  destruct (JoinPath (Client.executionsEndpoint c) "executions")
    as [url [je|]]; [now intros [= <- _ _]|].
  destruct (NewRequest "POST" url); [now intros [= <- _ _]|].
  destruct (Do _ w) as [[res|de] w1]; [|now intros [= <- _ _]].
  destruct (negb (Client.StatusCode res =? Client.StatusAccepted));
    [now intros [= <- _ _]|].
  destruct (Unmarshal (Client.Body res)) as [id' [ue|]];
    [now intros [= <- _ _]|discriminate].
Qed.

(** X15: [RenderTemplate] returns a payload without error exactly when
    the request is built, the one POST of the marshalled arguments is
    answered with status 200 and the body is read without error; the
    payload is that body.  The path is whatever [url.JoinPath] returned,
    its error being dropped. *)
Theorem RenderTemplate_needs_200 (c : Client.TemplatesClient)
    (name : string) (args : list (string * string)) (w w' : W)
    (body : string) :
  Client.RenderTemplate W quote JoinPath NewRequest Do Marshal c name args w
    = ((body, None), w') <->
  exists res,
    NewRequest "POST"
      (fst (JoinPath (Client.templatesEndpoint c)
                     ("templates/" ++ name ++ "/render"))) = None /\
    Do (Client.mkRequest "POST"
          (fst (JoinPath (Client.templatesEndpoint c)
                         ("templates/" ++ name ++ "/render")))
          (Client.headers (Client.templatesToken c)) (Marshal args)) w
      = (inl res, w') /\
    Client.StatusCode res = 200 /\
    Client.BodyErr res = None /\
    Client.Body res = body.
Proof.
  rewrite RenderTemplate_ok. split.
  - intros [url [res [<- H]]]. now exists res.
  - intros [res H]. eexists _, res. split; [reflexivity|exact H].
Qed.

(** X16: [ingestFile] over the two clients returns an identifier without
    error exactly when two requests go through one after the other: the
    POST that renders the template [bepensa-order] with the bucket and the
    name of the part among its arguments, answered with status 200, and
    the POST of the body of that answer, as it is, to the executions
    service, answered with status 202 and a body that decodes to the
    identifier. *)
Theorem ingestFile_two_requests (tc : Client.TemplatesClient)
    (xc : Client.ExecutionsClient) (file : File) (w w' : W) (id : string) :
  ingestFile
    (Client.RenderTemplate W quote JoinPath NewRequest Do Marshal tc)
    (Client.CreateExecution W quote JoinPath NewRequest Do Unmarshal xc)
    file w = ((id, None), w') <->
  exists r1 w1 url2 r2,
    NewRequest "POST"
      (fst (JoinPath (Client.templatesEndpoint tc)
                     "templates/bepensa-order/render")) = None /\
    Do (Client.mkRequest "POST"
          (fst (JoinPath (Client.templatesEndpoint tc)
                         "templates/bepensa-order/render"))
          (Client.headers (Client.templatesToken tc))
          (Marshal (ingestArgs file))) w
      = (inl r1, w1) /\
    Client.StatusCode r1 = 200 /\
    Client.BodyErr r1 = None /\
    JoinPath (Client.executionsEndpoint xc) "executions" = (url2, None) /\
    NewRequest "POST" url2 = None /\
    Do (Client.mkRequest "POST" url2
          (Client.headers (Client.executionsToken xc)) (Client.Body r1)) w1
      = (inl r2, w') /\
    Client.StatusCode r2 = 202 /\
    Unmarshal (Client.Body r2) = (id, None).
Proof.
  unfold ingestFile. fold (ingestArgs file).
  destruct (Client.RenderTemplate W quote JoinPath NewRequest Do Marshal tc
              TemplateName (ingestArgs file) w) as [[tmpl [e|]] w1] eqn:R.
  - split; [discriminate|].
    intros [r1 [w1' [url2 [r2 [N1 [D1 [S1 [B1 _]]]]]]]].
    assert (Hok : Client.RenderTemplate W quote JoinPath NewRequest Do
                    Marshal tc TemplateName (ingestArgs file) w
                  = ((Client.Body r1, None), w1')).
    { apply RenderTemplate_ok. eexists _, r1.
      split; [reflexivity|]. repeat split; assumption. }
    rewrite Hok in R. discriminate.
  - apply RenderTemplate_ok in R
      as [url1 [r1 [<- [N1 [D1 [S1 [B1 <-]]]]]]].
    rewrite CreateExecution_ok. split.
    + intros [url2 [r2 [J2 [N2 [D2 [S2 U2]]]]]].
      exists r1, w1, url2, r2. repeat split; assumption.
    + intros [r1' [w1' [url2 [r2 [_ [D1' [_ [_ [J2 [N2 [D2 [S2 U2]]]]]]]]]]]].
      change ("templates/" ++ TemplateName ++ "/render")%string
        with "templates/bepensa-order/render" in D1.
      rewrite D1 in D1'. injection D1' as <- <-.
      exists url2, r2. repeat split; assumption.
Qed.

End ClientFacts.

(** * The further properties at sample inputs *)

(** A call that returns two files out of three parts. *)
Lemma returned_files_are_closed_parts_witness :
  outcome (splitFile parseDecimal noFaults 20 sampleSource sampleFile)
    = Return [mkFile OutBucket part0; mkFile OutBucket part1] None /\
  exists ps qs,
    parts (splitFile parseDecimal noFaults 20 sampleSource sampleFile)
      = (ps ++ qs)%list /\
    [mkFile OutBucket part0; mkFile OutBucket part1] = map recorded ps /\
    Forall (ClosedOk noFaults) ps.
Proof.
  split; [reflexivity|].
  exact (returned_files_are_closed_parts parseDecimal noFaults 20
           sampleSource sampleFile _ None eq_refl).
Defined.

(** The same call: all its parts but the last are recorded. *)
Lemma returned_files_omit_last_witness :
  dataRows [InRecord (sampleRow "1" "3"); InRecord (sampleRow "2" "4")]
    <> [] /\
  exists ps w,
    parts (splitFile parseDecimal noFaults 20
             (inl [ InRecord sampleHeader; InRecord (sampleRow "1" "3");
                    InRecord (sampleRow "2" "4") ]) sampleFile)
      = (ps ++ [w])%list /\
    [mkFile OutBucket part0] = map recorded ps.
Proof.
  split; [discriminate|].
  apply (returned_files_omit_last parseDecimal noFaults 20 sampleHeader
           [InRecord (sampleRow "1" "3"); InRecord (sampleRow "2" "4")]
           sampleFile [mkFile OutBucket part0] eq_refl).
  discriminate.
Defined.

(** Records of 24 to 26 bytes against a threshold of 20. *)
Lemma parts_sized_by_threshold_witness :
  0 <= 20 /\
  exists ps last,
    parts (splitFile parseDecimal noFaults 20 sampleSource sampleFile)
      = (ps ++ last)%list /\
    (List.length last <= 1)%nat /\
    Forall (fun p => Full 20 p /\ NotOver 20 p) ps /\
    Forall (NotOver 20) last.
Proof.
  split; [lia|].
  apply (parts_sized_by_threshold parseDecimal noFaults 20 sampleHeader
           [ InRecord (sampleRow "1" "3"); InRecord (sampleRow "2" "0");
             InRecord (sampleRow "3" "-5"); InRecord (sampleRow "4" "0.5");
             InRecord (sampleRow "5" "12") ] sampleFile).
  - lia.
  - repeat constructor.
Defined.

(** Two records, both dropped. *)
Lemma all_dropped_one_header_part_witness :
  filter (kept parseDecimal) (dataRows droppedSource) = [] /\
  [] = @nil File /\
  parts (splitFile parseDecimal noFaults MaxFileSize
           (inl (InRecord sampleHeader :: droppedSource)) sampleFile)
  = [mkPart (partFileName (Name sampleFile) 0) [sampleHeader] true].
Proof.
  split; [reflexivity|].
  apply (all_dropped_one_header_part parseDecimal noFaults MaxFileSize
           sampleHeader droppedSource sampleFile []).
  - apply Z.leb_le. reflexivity.
  - discriminate.
  - reflexivity.
  - reflexivity.
Defined.


(** The five records of the sample source. *)
Lemma success_means_rows_checked_witness :
  Forall (fun r => (List.length sampleHeader <> 0%nat ->
                    List.length r = List.length sampleHeader) /\
                   Parsed parseDecimal r)
         [ sampleRow "1" "3"; sampleRow "2" "0"; sampleRow "3" "-5";
           sampleRow "4" "0.5"; sampleRow "5" "12" ].
Proof.
  exact (success_means_rows_checked parseDecimal noFaults 20 sampleHeader
           [ InRecord (sampleRow "1" "3"); InRecord (sampleRow "2" "0");
             InRecord (sampleRow "3" "-5"); InRecord (sampleRow "4" "0.5");
             InRecord (sampleRow "5" "12") ] sampleFile
           [mkFile OutBucket part0; mkFile OutBucket part1] eq_refl).
Defined.

(** Files a and c go through. *)
Lemma all_files_ingested_witness :
  exists w',
    runsOk (splitIn parseDecimal 20) (ingestFile renderIn executeIn)
           sampleWorld [fileA; fileC]
           [[partA0]; [partC0; partC1]]
           [ ["exec:mx_sellout/20230801-a.csv_part_000000.csv"];
             ["exec:mx_sellout/20230801-c.csv_part_000000.csv";
              "exec:mx_sellout/20230801-c.csv_part_000001.csv"] ]
           w' /\
    main (splitIn parseDecimal 20) renderIn executeIn [fileA; fileC]
         sampleWorld
    = Finished
        (mkVars [ ["exec:mx_sellout/20230801-a.csv_part_000000.csv"];
                  ["exec:mx_sellout/20230801-c.csv_part_000000.csv";
                   "exec:mx_sellout/20230801-c.csv_part_000001.csv"] ]
                fileC partC1 None)
        [ PartsLine (Name fileA) 1; PartsLine (Name fileC) 2;
          FileLine fileA;
          ExecsLine ["exec:mx_sellout/20230801-a.csv_part_000000.csv"];
          FileLine fileC;
          ExecsLine ["exec:mx_sellout/20230801-c.csv_part_000000.csv";
                     "exec:mx_sellout/20230801-c.csv_part_000001.csv"] ]
        w'.
Proof.
  eexists.
  refine ((fun H => conj H
             (all_files_ingested World (splitIn parseDecimal 20)
                renderIn executeIn _ _ _ _ _ H)) _).
  eapply runsOk_cons;
    [reflexivity
    |eapply ingestsOk_cons; [reflexivity|apply ingestsOk_nil]
    |].
  eapply runsOk_cons;
    [reflexivity
    |eapply ingestsOk_cons;
       [reflexivity
       |eapply ingestsOk_cons; [reflexivity|apply ingestsOk_nil]]
    |apply runsOk_nil].
Defined.

(** File a goes through, the second file is not in the bucket, file c is
    not reached. *)
Lemma split_failure_aborts_witness :
  exists w2,
    main (splitIn parseDecimal 20) renderIn executeIn
         [fileA; fileMissing; fileC] sampleWorld
    = Finished
        (mkVars [ ["exec:mx_sellout/20230801-a.csv_part_000000.csv"];
                  []; [] ]
                fileMissing partA0
                (Some (IOError "storage: object doesn't exist")))
        [ PartsLine (Name fileA) 1; PartsLine (Name fileMissing) 0;
          ErrorReport fileMissing partA0
                      (IOError "storage: object doesn't exist");
          FileLine fileA;
          ExecsLine ["exec:mx_sellout/20230801-a.csv_part_000000.csv"];
          FileLine fileMissing; ExecsLine [];
          FileLine fileC; ExecsLine [] ]
        w2 /\
    calls w2
    = [ CallSplit fileA;
        CallRender TemplateName (ingestArgs partA0);
        CallCreate (Name partA0);
        CallSplit fileMissing ].
Proof.
  eexists. split.
  - eapply (split_failure_aborts World (splitIn parseDecimal 20)
              renderIn executeIn [fileA] [fileC] fileMissing
              [[partA0]]
              [["exec:mx_sellout/20230801-a.csv_part_000000.csv"]]
              [] (IOError "storage: object doesn't exist") sampleWorld).
    + eapply runsOk_cons;
        [reflexivity
        |eapply ingestsOk_cons; [reflexivity|apply ingestsOk_nil]
        |apply runsOk_nil].
    + reflexivity.
  - reflexivity.
Defined.

(** File a goes through, part 1 of file b is turned down. *)
Lemma ingest_failure_aborts_witness :
  exists w4,
    main (splitIn parseDecimal 20) renderIn executeIn
         [fileA; fileB; fileC] sampleWorld
    = Finished
        (mkVars [ ["exec:mx_sellout/20230801-a.csv_part_000000.csv"];
                  ["exec:mx_sellout/20230801-b.csv_part_000000.csv"; ""];
                  [] ]
                fileB partB1
                (Some (APIError "POST executions returned 500")))
        [ PartsLine (Name fileA) 1; PartsLine (Name fileB) 2;
          ErrorReport fileB partB1 (APIError "POST executions returned 500");
          FileLine fileA;
          ExecsLine ["exec:mx_sellout/20230801-a.csv_part_000000.csv"];
          FileLine fileB;
          ExecsLine ["exec:mx_sellout/20230801-b.csv_part_000000.csv"; ""];
          FileLine fileC; ExecsLine [] ]
        w4.
Proof.
  eexists.
  eapply (ingest_failure_aborts World (splitIn parseDecimal 20)
            renderIn executeIn [fileA] [fileC] fileB
            [[partA0]]
            [["exec:mx_sellout/20230801-a.csv_part_000000.csv"]]
            [partB0] [] partB1
            ["exec:mx_sellout/20230801-b.csv_part_000000.csv"] ""
            (APIError "POST executions returned 500") sampleWorld).
  - eapply runsOk_cons;
      [reflexivity
      |eapply ingestsOk_cons; [reflexivity|apply ingestsOk_nil]
      |apply runsOk_nil].
  - reflexivity.
  - eapply ingestsOk_cons; [reflexivity|apply ingestsOk_nil].
  - reflexivity.
Defined.

(** One part ingested over the sample transport: two requests, the body
    of the first answer being the payload of the second. *)
Lemma ingestFile_two_requests_witness :
  ingestFile
    (Client.RenderTemplate (list Client.Request) (fun s => s) sampleJoinPath
       (fun _ _ => None) sampleDo sampleMarshal sampleTemplates)
    (Client.CreateExecution (list Client.Request) (fun s => s)
       sampleJoinPath (fun _ _ => None) sampleDo sampleUnmarshal
       sampleExecutions)
    partA0 []
  = (("exec-1", None),
     [ Client.mkRequest "POST"
         "https://api/integrations-templates/templates/bepensa-order/render"
         [("Content-Type", "application/json");
          ("Authorization", "Bearer t0k")]
         (sampleMarshal (ingestArgs partA0));
       Client.mkRequest "POST"
         "https://api/integrations-executions/executions"
         [("Content-Type", "application/json")]
         ("flow for " ++ sampleMarshal (ingestArgs partA0)) ]).
Proof.
  apply (proj2 (ingestFile_two_requests (list Client.Request) (fun s => s)
                  sampleJoinPath (fun _ _ => None) sampleDo sampleMarshal
                  sampleUnmarshal sampleTemplates sampleExecutions partA0
                  [] _ "exec-1")).
  eexists _, _, _, _. repeat split; reflexivity.
Defined.
